(** * NIQE (Natural Image Quality Evaluator): a shallow embedding of
    [Evaluate/niqe.py] and the properties of its four stages.

    The Python module computes the score in four steps:
    [estimate_aggd_param] (AGGD fit by table lookup), [compute_feature]
    (18 features per block), the two-scale block loop of [niqe], and the
    final multivariate-Gaussian comparison (also in [niqe]).
    [calculate_niqe] is the entry point used by the video driver.

    Modelling choices.
    - A pixel or feature value is an IEEE binary64 number, written with the
      Standard Library's [spec_float] at precision 53 and exponent bound
      1024: NaN, signed zeros, infinities and round-to-nearest-even are the
      ones numpy computes with.
    - An image, a block or a feature matrix is a list of rows.
    - Library routines whose code is not part of the module (scipy's
      [gamma] and [convolve], [utils.imresize], [np.cov],
      [np.linalg.pinv], the file loader and the colour conversions) are
      Section variables: every theorem holds for every such routine.
      [gamma], [convolve] and [np.cov] return an array for every array;
      the resize, the pseudo-inverse, the loader and the indexing may
      raise.
    - Reductions ([np.sum], [np.mean]) add from left to right; numpy's
      blocked summation differs from this in the last bits only.  [x ** 2]
      and [x ** 3] are written as products. *)

From Stdlib Require Import String ZArith List Bool Lia.
From Stdlib Require Import Floats.SpecFloat.
Import ListNotations.
Local Open Scope Z_scope.

(** ** Binary64 arithmetic *)

Module F64.

Definition prec : Z := 53.
Definition emax : Z := 1024.

Definition float : Type := spec_float.

Definition nan : float := S754_nan.
Definition zero : float := S754_zero false.
Definition of_Z (z : Z) : float := binary_normalize prec emax z 0 false.
Definition one : float := of_Z 1.

Definition add : float -> float -> float := SFadd prec emax.
Definition sub : float -> float -> float := SFsub prec emax.
Definition mul : float -> float -> float := SFmul prec emax.
Definition div : float -> float -> float := SFdiv prec emax.
Definition sqrt : float -> float := SFsqrt prec emax.
Definition abs : float -> float := SFabs.
Definition square (x : float) : float := mul x x.
Definition cube (x : float) : float := mul (mul x x) x.

Definition ltb : float -> float -> bool := SFltb.
Definition leb : float -> float -> bool := SFleb.

Definition is_nan (x : float) : bool :=
  match x with S754_nan => true | _ => false end.

(** A decimal literal [a/b] with [a] and [b] exact: the division rounds
    once, which is how Python reads [0.2], [10.001] and [0.001]. *)
Definition dec (a b : Z) : float := div (of_Z a) (of_Z b).

(** The least integer not below [x] ([math.ceil]); 0 on NaN and infinities,
    where Python raises. *)
Definition ceil_Z (x : float) : Z :=
  match x with
  | S754_finite s m e =>
      let v := if s then Zneg m else Zpos m in
      if 0 <=? e then v * 2 ^ e else - ((- v) / 2 ^ (- e))
  | _ => 0
  end.

(** The sign is not negative: NaN, either zero, and the positive numbers.
    This is the shape of everything a square root returns. *)
Definition sign_ok (x : float) : Prop :=
  match x with
  | S754_nan | S754_zero _ => True
  | S754_infinity s | S754_finite s _ _ => s = false
  end.

(** A number that is not negative: [sign_ok] and not NaN. *)
Definition nonneg (x : float) : Prop :=
  match x with
  | S754_nan => False
  | S754_zero _ => True
  | S754_infinity s | S754_finite s _ _ => s = false
  end.

End F64.

Import F64.

(** ** The numpy operations the module calls *)

Module Np.

(** [np.sum] of a one-dimensional array. *)
Definition sum (l : list float) : float := fold_left add l zero.

(** [np.mean]: the sum over the count; 0/0 = NaN on the empty array. *)
Definition mean (l : list float) : float :=
  div (sum l) (of_Z (Z.of_nat (length l))).

(** [np.arange(start, stop, step)] on floats: the length is
    [ceil((stop - start) / step)]; the first two entries are [start] and
    [start + step], and entry [i] is [start + i * delta] where [delta] is
    the difference of the first two. *)
Definition arange_entry (start step : float) (i : nat) : float :=
  let next := add start step in
  let delta := sub next start in
  match i with
  | O => start
  | S O => next
  | _ => add start (mul (of_Z (Z.of_nat i)) delta)
  end.

Definition arange (start stop step : float) : list float :=
  let len := Z.to_nat (ceil_Z (div (sub stop start) step)) in
  map (arange_entry start step) (seq 0 len).

(** [np.argmin] of a one-dimensional array: the scan keeps the first
    smallest entry, and stops at the first NaN, which counts as smallest. *)
Fixpoint argmin_scan (mp : float) (min_ind i : nat) (l : list float) : nat :=
  match l with
  | [] => min_ind
  | x :: rest =>
      if negb (leb mp x)
      then if is_nan x then i else argmin_scan x i (S i) rest
      else argmin_scan mp min_ind (S i) rest
  end.

Definition argmin (l : list float) : nat :=
  match l with
  | [] => O
  | x :: rest => if is_nan x then O else argmin_scan x O 1%nat rest
  end.

(** [np.roll] along one axis: entry [i] of the result is entry
    [(i - shift) mod n] of the argument. *)
Definition roll1 {A : Type} (shift : Z) (l : list A) : list A :=
  let n := Z.of_nat (length l) in
  let k := Z.to_nat ((n - shift mod n) mod n) in
  skipn k l ++ firstn k l.

(** [np.roll(block, [s0, s1], axis=(0, 1))]. *)
Definition roll (s0 s1 : Z) (block : list (list float)) : list (list float) :=
  map (roll1 s1) (roll1 s0 block).

(** Element-wise product of two arrays of one shape. *)
Fixpoint mul1 (a b : list float) : list float :=
  match a, b with
  | x :: a', y :: b' => mul x y :: mul1 a' b'
  | _, _ => []
  end.

Fixpoint mul2 (a b : list (list float)) : list (list float) :=
  match a, b with
  | x :: a', y :: b' => mul1 x y :: mul2 a' b'
  | _, _ => []
  end.

End Np.

(** ** AGGD estimator: [estimate_aggd_param] *)

(** Line 19: the candidate shapes. *)
Definition gam : list float :=
  Np.arange (dec 2 10) (dec 10001 1000) (dec 1 1000).

(** The float [x] is the decimal [n / 1000] up to [10^-14]. *)
Definition near_milli (x : float) (n : Z) : bool :=
  match x with
  | S754_finite false m e =>
      (e <? 0) &&
      (Z.abs (Z.pos m * 1000 * 10 ^ 14 - n * 10 ^ 14 * 2 ^ (- e))
         <=? 1000 * 2 ^ (- e))
  | _ => false
  end.

Section Estimator.

(** [scipy.special.gamma]. *)
Variable gamma : float -> float.

(** Lines 20-21. *)
Definition gam_reciprocal : list float := map (fun g => div one g) gam.

Definition r_gam : list float :=
  map (fun r => div (square (gamma (mul r (of_Z 2))))
                    (mul (gamma r) (gamma (mul r (of_Z 3)))))
      gam_reciprocal.

(** Lines 23-24: root mean square of the strictly negative (positive)
    entries. *)
Definition left_std (block : list float) : float :=
  sqrt (Np.mean (map square (filter (fun x => ltb x zero) block))).

Definition right_std (block : list float) : float :=
  sqrt (Np.mean (map square (filter (fun x => ltb zero x) block))).

(** Lines 25-27. *)
Definition rhatnorm_of (block : list float) : float :=
  let gammahat := div (left_std block) (right_std block) in
  let rhat := div (square (Np.mean (map abs block)))
                  (Np.mean (map square block)) in
  div (mul (mul rhat (add (cube gammahat) one)) (add gammahat one))
      (square (add (square gammahat) one)).

(** Line 28. *)
Definition array_position (block : list float) : nat :=
  Np.argmin (map (fun r => square (sub r (rhatnorm_of block))) r_gam).

(** The factor of lines 31-32, shared by the two sides. *)
Definition beta_factor (alpha : float) : float :=
  sqrt (div (gamma (div one alpha)) (gamma (div (of_Z 3) alpha))).

(** The function: the block is flattened first (line 18). *)
Definition estimate_aggd_param (block2d : list (list float))
  : float * float * float :=
  let block := concat block2d in
  let alpha := nth (array_position block) gam nan in
  let beta_l := mul (left_std block) (beta_factor alpha) in
  let beta_r := mul (right_std block) (beta_factor alpha) in
  (alpha, beta_l, beta_r).

(** ** Feature extractor: [compute_feature] *)

(** Line 51. *)
Definition shifts : list (Z * Z) := [(0, 1); (1, 0); (1, 1); (1, -1)].

(** Lines 53-57: the four values one shift appends. *)
Definition shift_features (block : list (list float)) (s : Z * Z)
  : list float :=
  let shifted_block := Np.roll (fst s) (snd s) block in
  let '(alpha, beta_l, beta_r) :=
    estimate_aggd_param (Np.mul2 block shifted_block) in
  let mean := mul (sub beta_r beta_l)
                  (div (gamma (div (of_Z 2) alpha)) (gamma (div one alpha))) in
  [alpha; mean; beta_l; beta_r].

(** The function: [feat] grows by [extend] in the order of the loop. *)
Definition compute_feature (block : list (list float)) : list float :=
  let '(alpha, beta_l, beta_r) := estimate_aggd_param block in
  let feat := [alpha; div (add beta_l beta_r) (of_Z 2)] in
  fold_left (fun feat s => feat ++ shift_features block s) shifts feat.

End Estimator.

(** No entry is strictly negative (strictly positive). *)
Definition no_negative (block : list float) : Prop :=
  Forall (fun x => ltb x zero = false) block.

Definition no_positive (block : list float) : Prop :=
  Forall (fun x => ltb zero x = false) block.

(** ** Exceptions and results *)

(** The exceptions a call of [niqe] can end in: its own [assert]
    (line 86), the division by a zero block size (lines 89-90),
    the failure of the resize between the scales (line 111),
    [np.concatenate] on arrays it cannot join (line 114), and the failure
    of the pseudo-inverse (line 123).  [calculate_niqe] adds those of the
    loader (line 158) and of the indexing of line 173. *)
Inductive exn : Type :=
| AssertionError
| ZeroDivisionError
| RuntimeError
| AxisError
| ValueError
| LinAlgError
| OSError
| IndexError.

Inductive result (A : Type) : Type :=
| Ok (a : A)
| Raise (e : exn).

Arguments Ok {A} a.
Arguments Raise {A} e.

Definition bind {A B : Type} (r : result A) (k : A -> result B) : result B :=
  match r with
  | Ok a => k a
  | Raise e => Raise e
  end.

Notation "x <- r ;; k" := (bind r (fun x => k))
  (at level 61, r at next level, right associativity).

(** A [for] loop whose body can raise: the state is threaded through the
    turns and the first exception ends the loop. *)
Fixpoint for_each {A B : Type} (body : A -> B -> result A) (l : list B)
  (a : A) : result A :=
  match l with
  | [] => Ok a
  | b :: l' => a' <- body a b ;; for_each body l' a'
  end.

(** ** Arrays *)

(** An [ndarray] of floats: its shape and its entries in row-major
    order. *)
Record ndarray : Type := { shape : list Z; data : list float }.

Definition ndim (a : ndarray) : nat := length (shape a).

Definition image : Type := list (list float).
Definition matrix : Type := list (list float).

(** The rows of a two-dimensional array: [h] chunks of [w] entries. *)
Fixpoint chunks (h w : nat) (l : list float) : image :=
  match h with
  | O => []
  | S h' => firstn w l :: chunks h' w (skipn w l)
  end.

Definition rows_of (a : ndarray) : image :=
  match shape a with
  | [h; w] => chunks (Z.to_nat h) (Z.to_nat w) (data a)
  | _ => []
  end.

(** [range(n)]. *)
Definition range (n : Z) : list Z := map Z.of_nat (seq 0 (Z.to_nat n)).

(** The slice [l[a:b]] for bounds that are not negative, the only ones the
    module computes: the bounds are clipped to the length. *)
Definition py_slice {A : Type} (a b : Z) (l : list A) : list A :=
  firstn (Z.to_nat (b - a)) (skipn (Z.to_nat a) l).

(** [img[r0:r1, c0:c1]]. *)
Definition slice2 (r0 r1 c0 c1 : Z) (img : image) : image :=
  map (py_slice c0 c1) (py_slice r0 r1 img).

Definition map_img (f : float -> float) (img : image) : image :=
  map (map f) img.

Fixpoint zip_with {A B C : Type} (f : A -> B -> C) (a : list A) (b : list B)
  : list C :=
  match a, b with
  | x :: a', y :: b' => f x y :: zip_with f a' b'
  | _, _ => []
  end.

Definition zip_img (f : float -> float -> float) (a b : image) : image :=
  zip_with (zip_with f) a b.

(** The columns of a list of rows. *)
Fixpoint transpose (m : list (list float)) : list (list float) :=
  match m with
  | [] => []
  | [r] => map (fun x => [x]) r
  | r :: m' => zip_with cons r (transpose m')
  end.

(** [np.array(feat)] followed by [np.concatenate(_, axis=1)]: an empty
    [feat] is a one-dimensional array, which has no axis 1; arrays of two
    dimensions are joined row by row when their row counts agree. *)
Fixpoint concatenate_rows (acc : list (list float))
  (arrays : list (list (list float))) : result (list (list float)) :=
  match arrays with
  | [] => Ok acc
  | a :: rest =>
      match a with
      | [] => Raise ValueError
      | _ => if Nat.eqb (length a) (length acc)
             then concatenate_rows (zip_with (@app float) acc a) rest
             else Raise ValueError
      end
  end.

Definition np_concatenate_axis1 (arrays : list (list (list float)))
  : result (list (list float)) :=
  match arrays with
  | [] => Raise ValueError
  | [] :: _ => Raise AxisError
  | a :: rest => concatenate_rows a rest
  end.

(** [np.nanmean] of one column: NaN entries count as 0 in the sum and are
    left out of the count; 0/0 = NaN when every entry is NaN. *)
Definition nan_to_zero (x : float) : float := if is_nan x then zero else x.

Definition count_not_nan (col : list float) : nat :=
  length (filter (fun x => negb (is_nan x)) col).

Definition nanmean (col : list float) : float :=
  div (Np.sum (map nan_to_zero col)) (of_Z (Z.of_nat (count_not_nan col))).

(** [np.nanmean(distparam, axis=0)]. *)
Definition nanmean_axis0 (m : list (list float)) : list float :=
  map nanmean (transpose m).

(** [~np.isnan(row).any()]. *)
Definition row_has_nan (row : list float) : bool := existsb is_nan row.

(** Products of line 124-125, summed from left to right. *)
Definition dot (a b : list float) : float := Np.sum (zip_with mul a b).

Definition vecmat (v : list float) (m : matrix) : list float :=
  map (dot v) (transpose m).

(** ** The two-scale block loop and the final comparison: [niqe] *)

Section Niqe.

Variable gamma : float -> float.

(** [scipy.ndimage.convolve(_, window, mode='nearest')]. *)
Variable convolve : image -> image -> image.

(** [utils.imresize(_, scale=0.5, antialiasing=True)], a routine of the
    repository's [utils] module.  It raises on an image too small for its
    resampling kernel, the empty image included ([RuntimeError]). *)
Variable imresize : image -> result image.

(** [np.cov(_, rowvar=False)]. *)
Variable np_cov : list (list float) -> matrix.

(** [np.linalg.pinv], which raises [LinAlgError] when its singular value
    decomposition does not converge. *)
Variable pinv : matrix -> result matrix.

(** Lines 86-90: the guard and the block counts.  [math.floor(h / b)] is
    the floor quotient for sizes below 2^53. *)
Definition niqe_entry (img : ndarray) (block_size_h block_size_w : Z)
  : result (Z * Z) :=
  if negb (Nat.eqb (ndim img) 2) then Raise AssertionError
  else
    match shape img with
    | [h; w] =>
        if block_size_h =? 0 then Raise ZeroDivisionError
        else if block_size_w =? 0 then Raise ZeroDivisionError
        else Ok (h / block_size_h, w / block_size_w)
    | _ => Raise AssertionError
    end.

(** Lines 95-98. *)
Definition normalize (img window : image) : image :=
  let mu := convolve img window in
  let sigma :=
    map_img (fun x => sqrt (abs x))
      (zip_img sub (convolve (map_img square img) window)
                   (map_img square mu)) in
  zip_img div (zip_img sub img mu) (map_img (fun s => add s one) sigma).

(** Lines 104-105: the bounds of the block [(idx_h, idx_w)] at [scale], as
    [(row start, row stop, column start, column stop)]. *)
Definition block_bounds (block_size_h block_size_w scale idx_h idx_w : Z)
  : Z * Z * Z * Z :=
  (idx_h * block_size_h / scale, (idx_h + 1) * block_size_h / scale,
   idx_w * block_size_w / scale, (idx_w + 1) * block_size_w / scale).

Definition block_at (img_nomalized : image)
  (block_size_h block_size_w scale idx_h idx_w : Z) : image :=
  let '(r0, r1, c0, c1) :=
    block_bounds block_size_h block_size_w scale idx_h idx_w in
  slice2 r0 r1 c0 c1 img_nomalized.

(** Lines 101-102: the index pairs [(idx_h, idx_w)] in the order the two
    loops visit them. *)
Definition block_indices (num_block_h num_block_w : Z) : list (Z * Z) :=
  flat_map (fun idx_w => map (fun idx_h => (idx_h, idx_w)) (range num_block_h))
           (range num_block_w).

(** Lines 100-106: [feat] after the two loops. *)
Definition scale_features (img window : image)
  (num_block_h num_block_w block_size_h block_size_w scale : Z)
  : list (list float) :=
  let img_nomalized := normalize img window in
  map (fun idx =>
         compute_feature gamma
           (block_at img_nomalized block_size_h block_size_w scale
                     (fst idx) (snd idx)))
      (block_indices num_block_h num_block_w).

(** Lines 110-112: the image handed to the next scale. *)
Definition next_scale (img : image) (scale : Z) : result image :=
  if scale =? 1
  then
    resized <- imresize (map_img (fun x => div x (of_Z 255)) img) ;;
    Ok (map_img (fun x => mul x (of_Z 255)) resized)
  else Ok img.

(** Lines 94-112: one turn of the loop over the scales; the state is the
    current image and the list [distparam]. *)
Definition scale_step (window : image)
  (num_block_h num_block_w block_size_h block_size_w : Z)
  (st : image * list (list (list float))) (scale : Z)
  : result (image * list (list (list float))) :=
  let '(img, distparam) := st in
  let feat := scale_features img window num_block_h num_block_w
                             block_size_h block_size_w scale in
  let distparam := distparam ++ [feat] in
  img <- next_scale img scale ;;
  Ok (img, distparam).

(** Lines 86-114: the 36-column matrix of features. *)
Definition niqe_distparam (img : ndarray) (window : image)
  (block_size_h block_size_w : Z) : result (list (list float)) :=
  nb <- niqe_entry img block_size_h block_size_w ;;
  let '(num_block_h, num_block_w) := nb in
  let img := slice2 0 (num_block_h * block_size_h)
                    0 (num_block_w * block_size_w) (rows_of img) in
  st <- for_each
          (scale_step window num_block_h num_block_w
                      block_size_h block_size_w)
          [1; 2] (img, []) ;;
  np_concatenate_axis1 (snd st).

(** Line 119. *)
Definition distparam_no_nan (distparam : list (list float))
  : list (list float) :=
  filter (fun row => negb (row_has_nan row)) distparam.

(** Line 123's argument. *)
Definition pooled (cov_pris_param cov_distparam : matrix) : matrix :=
  map_img (fun x => div x (of_Z 2)) (zip_img add cov_pris_param cov_distparam).

(** Lines 124-125. *)
Definition quadratic_form (diff : list float) (invcov_param : matrix)
  : float :=
  dot (vecmat diff invcov_param) diff.

(** Lines 117-129: the score of a feature matrix. *)
Definition niqe_aggregate (mu_pris_param : list float)
  (cov_pris_param : matrix) (distparam : list (list float)) : result float :=
  let mu_distparam := nanmean_axis0 distparam in
  let cov_distparam := np_cov (distparam_no_nan distparam) in
  invcov_param <- pinv (pooled cov_pris_param cov_distparam) ;;
  let diff := zip_with sub mu_pris_param mu_distparam in
  let quality := quadratic_form diff invcov_param in
  Ok (sqrt quality).

(** The function. *)
Definition niqe (img : ndarray) (mu_pris_param : list float)
  (cov_pris_param : matrix) (gaussian_window : image)
  (block_size_h block_size_w : Z) : result float :=
  distparam <- niqe_distparam img gaussian_window block_size_h block_size_w ;;
  niqe_aggregate mu_pris_param cov_pris_param distparam.

End Niqe.

(** ** The entry point: [calculate_niqe] *)

(** A value passed by keyword. *)
Inductive pyvalue : Type :=
| PyInt (z : Z)
| PyFloat (x : float)
| PyStr (s : string)
| PyNone.

Section Entry.

Variable gamma : float -> float.
Variable convolve : image -> image -> image.
Variable imresize : image -> result image.
Variable np_cov : list (list float) -> matrix.
Variable pinv : matrix -> result matrix.

(** Lines 158-161: [np.load] of [niqe_pris_params.npz] under
    [params_path], and its three arrays [mu_pris_param],
    [cov_pris_param] and [gaussian_window]. *)
Variable np_load : string -> result (list float * matrix * image).

(** [img.astype(np.float32)], [utils.reorder_image],
    [utils.to_y_channel], [cv2.cvtColor(img / 255., cv2.COLOR_BGR2GRAY) * 255.],
    [np.squeeze], the slice [img[b:-b, b:-b]] and [img.round()]. *)
Variable astype_float32 : ndarray -> ndarray.
Variable reorder_image : ndarray -> string -> result ndarray.
Variable to_y_channel : ndarray -> ndarray.
Variable bgr2gray : ndarray -> ndarray.
Variable np_squeeze : ndarray -> ndarray.
Variable crop : Z -> ndarray -> result ndarray.
Variable np_round : ndarray -> ndarray.

(** Lines 164-170. *)
Definition to_gray (img : ndarray) (input_order convert_to : string)
  : result ndarray :=
  if negb (String.eqb input_order "HW") then
    img <- reorder_image img input_order ;;
    let img :=
      if String.eqb convert_to "y" then to_y_channel img
      else if String.eqb convert_to "gray" then bgr2gray img
      else img in
    Ok (np_squeeze img)
  else Ok img.

(** The function.  [kwargs] holds the keyword arguments that are none of
    the named parameters. *)
Definition calculate_niqe (img : ndarray) (crop_border : Z)
  (params_path input_order convert_to : string)
  (kwargs : list (string * pyvalue)) : result float :=
  niqe_pris_params <- np_load params_path ;;
  let '(mu_pris_param, cov_pris_param, gaussian_window) :=
    niqe_pris_params in
  let img := astype_float32 img in
  img <- to_gray img input_order convert_to ;;
  img <- (if negb (crop_border =? 0) then crop crop_border img else Ok img) ;;
  let img := np_round img in
  niqe gamma convolve imresize np_cov pinv img
       mu_pris_param cov_pris_param gaussian_window 96 96.

End Entry.

(** Line 91 as an array: the image cut down to whole blocks. *)
Definition crop_to_blocks (img : ndarray) (block_size_h block_size_w : Z)
  : ndarray :=
  match shape img with
  | [h; w] =>
      let rows := h / block_size_h * block_size_h in
      let cols := w / block_size_w * block_size_w in
      {| shape := [rows; cols];
         data := concat (slice2 0 rows 0 cols (rows_of img)) |}
  | _ => img
  end.

(** ** Frame cropping: [img_scissors] *)

(** A slice bound as Python reads it on a sequence of [n] entries: a
    negative bound counts from the end, and both kinds are clipped. *)
Definition py_bound (n i : Z) : Z :=
  if i <? 0 then Z.max (n + i) 0 else Z.min i n.

(** [l[a:b]] for any two integers. *)
Definition py_slice_any {A : Type} (a b : Z) (l : list A) : list A :=
  let n := Z.of_nat (length l) in
  firstn (Z.to_nat (py_bound n b - py_bound n a))
         (skipn (Z.to_nat (py_bound n a)) l).

(** Lines 188-194 along one axis: the start and the end of the centred
    window of [origin_size] entries in [size] entries. *)
Definition crop_bounds (size origin_size : Z) : Z * Z :=
  let center := size / 2 in
  let half_crop := origin_size / 2 in
  (Z.max (center - half_crop) 0, Z.min (center + half_crop) size).

(** [img.shape[:2]] of a frame given by its rows of pixels. *)
Definition frame_height {P : Type} (img : list (list P)) : Z :=
  Z.of_nat (length img).

Definition frame_width {P : Type} (img : list (list P)) : Z :=
  match img with
  | [] => 0
  | row :: _ => Z.of_nat (length row)
  end.

(** Line 195: [img[start_y:end_y, start_x:end_x]]. *)
Definition center_crop {P : Type} (img : list (list P)) (origin_size : Z)
  : list (list P) :=
  let '(start_y, end_y) := crop_bounds (frame_height img) origin_size in
  let '(start_x, end_x) := crop_bounds (frame_width img) origin_size in
  map (py_slice_any start_x end_x) (py_slice_any start_y end_y img).

Section Scissors.

Variables P Q R : Type.

(** [skimage.transform.resize(_, (dest_size, dest_size), anti_aliasing=True)]
    and [skimage.util.img_as_ubyte]. *)
Variable transform_resize : list (list P) -> Z -> result (list (list Q)).
Variable img_as_ubyte : list (list Q) -> result (list (list R)).

(** The function. *)
Definition img_scissors (img : list (list P)) (origin_size dest_size : Z)
  : result (list (list R)) :=
  let cropped_img := center_crop img origin_size in
  resized_img <- transform_resize cropped_img dest_size ;;
  img_as_ubyte resized_img.

End Scissors.

(** ** The video driver: [NIQE] *)

(** What a call of the driver can end in besides its result: an exception
    of the scoring or of the cropping, or the [AttributeError] of
    [None.shape]. *)
Inductive py_exn : Type :=
| Exn (e : exn)
| AttributeError.

Inductive outcome (A : Type) : Type :=
| Returned (a : A)
| Raised (e : py_exn).

Arguments Returned {A} a.
Arguments Raised {A} e.

(** A [cv2.VideoCapture]: whether it is opened, and the frames it has
    still to deliver.  [read()] delivers the next frame, or
    [(False, None)] when none is left. *)
Record capture (F : Type) : Type :=
  { opened : bool; frames : list F }.

Arguments opened {F} c.
Arguments frames {F} c.

Section Driver.

Variables F G : Type.

(** [img_scissors(_, 720, 512)] on a frame, and
    [calculate_niqe(_, crop_border=0, params_path=params_path)] on a
    cropped frame of the source and on a frame of the result. *)
Variable scissors : F -> Z -> Z -> result G.
Variable score_origin : G -> result float.
Variable score_result : F -> result float.

(** [str] of a float. *)
Variable py_str : float -> string.

(** Lines 214-225: the turns of the [while] loop, entered with both
    flags true.  [fo] and [fr] are the frames the two captures have left;
    the state is the two sums and [index]. *)
Fixpoint niqe_loop (fo fr : list F) (niqe_origin niqe_result : float)
  (index : Z) : outcome (float * float * Z) :=
  match fo with
  | [] => Raised AttributeError
  | frame_origin :: fo' =>
      match scissors frame_origin 720 512 with
      | Raise e => Raised (Exn e)
      | Ok img_origin =>
          match fr with
          | [] => Returned (niqe_origin, niqe_result, index)
          | frame_result :: fr' =>
              match score_origin img_origin with
              | Raise e => Raised (Exn e)
              | Ok s_origin =>
                  match score_result frame_result with
                  | Raise e => Raised (Exn e)
                  | Ok s_result =>
                      niqe_loop fo' fr' (add niqe_origin s_origin)
                                (add niqe_result s_result) (index + 1)
                  end
              end
          end
      end
  end.

(** Lines 203-225: the sums and the count when the loop is left. *)
Definition niqe_sums (video_origin video_result : capture F)
  : outcome (float * float * Z) :=
  if opened video_origin && opened video_result then
    match frames video_origin, frames video_result with
    | _ :: fo, _ :: fr => niqe_loop fo fr zero zero 0
    | _, _ => Returned (zero, zero, 0)
    end
  else Returned (zero, zero, 0).

(** Lines 226-227: the two averages. *)
Definition niqe_averages (video_origin video_result : capture F)
  : outcome (float * float) :=
  match niqe_sums video_origin video_result with
  | Raised e => Raised e
  | Returned (niqe_origin, niqe_result, index) =>
      if index =? 0 then Raised (Exn ZeroDivisionError)
      else Returned (div niqe_origin (of_Z index),
                     div niqe_result (of_Z index))
  end.

(** The function. *)
Definition NIQE (video_origin video_result : capture F) : outcome string :=
  match niqe_averages video_origin video_result with
  | Raised e => Raised e
  | Returned (niqe_origin, niqe_result) =>
      Returned ("The source video NIQE: " ++ py_str niqe_origin
                ++ String (Ascii.ascii_of_nat 10)
                     ("The hallo genarated video NIQE: "
                      ++ py_str niqe_result))%string
  end.

(** The cropping and the two scorings succeed on the frames [fo] of the
    source and [fr] of the result, with the values [crop], [s_origin]
    and [s_result]. *)
Variable crop : F -> G.
Variable s_origin s_result : F -> float.

Definition scoring_succeeds (fo fr : list F) : Prop :=
  (forall f, In f fo -> scissors f 720 512 = Ok (crop f)) /\
  (forall f, In f fo -> score_origin (crop f) = Ok (s_origin f)) /\
  (forall f, In f fr -> score_result f = Ok (s_result f)).

End Driver.

(** ** The order of the floats *)

(** A key whose lexicographic order is the order of the floats that are
    not NaN: the class (negative infinity, negative, zero, positive,
    positive infinity), then the exponent and the mantissa, both negated
    for negative numbers. *)
Definition rank (x : float) : Z * Z * Z :=
  match x with
  | S754_nan => (0, 0, 0)
  | S754_zero _ => (0, 0, 0)
  | S754_infinity true => (-2, 0, 0)
  | S754_infinity false => (2, 0, 0)
  | S754_finite true m e => (-1, - e, Z.neg m)
  | S754_finite false m e => (1, e, Z.pos m)
  end.

Definition lex_le (a b : Z * Z * Z) : Prop :=
  let '(a1, a2, a3) := a in
  let '(b1, b2, b3) := b in
  a1 < b1 \/ (a1 = b1 /\ (a2 < b2 \/ (a2 = b2 /\ a3 <= b3))).

Definition lex_lt (a b : Z * Z * Z) : Prop :=
  let '(a1, a2, a3) := a in
  let '(b1, b2, b3) := b in
  a1 < b1 \/ (a1 = b1 /\ (a2 < b2 \/ (a2 = b2 /\ a3 < b3))).

(** ** Data of the examples *)

(** Three values of the Gamma function, for the examples: 4!, 9! and 14!
    at 5, 10 and 15.  The examples consult no other value for their
    results; elsewhere the sample is NaN. *)
Definition gamma_sample (x : float) : float :=
  if SFeqb x (of_Z 5) then of_Z 24
  else if SFeqb x (of_Z 10) then of_Z 362880
  else if SFeqb x (of_Z 15) then of_Z 87178291200
  else nan.

(** Stand-ins for the image routines in the examples, where only the
    shape of their result matters: the convolution with the unit impulse,
    and a resize by one half that keeps every other row and column. *)
Definition convolve_impulse (img window : image) : image := img.

(** The window of one entry 1, with which the convolution is the
    identity. *)
Definition window_impulse : image := [[one]].

Fixpoint every_other {A : Type} (l : list A) : list A :=
  match l with
  | x :: _ :: rest => x :: every_other rest
  | x :: nil => [x]
  | nil => []
  end.

Definition halve (img : image) : image := map every_other (every_other img).

(** The stand-in for [utils.imresize]: it raises [RuntimeError] on an
    image of fewer than 8 rows or 8 columns, the empty image included, and
    halves the others.  The examples call it on the empty image and on
    images of 8 rows and columns at least. *)
Definition resize_sample (img : image) : result image :=
  if (Z.of_nat (length img) <? 8) || (frame_width img <? 8)
  then Raise RuntimeError
  else Ok (halve img).

(** A 192 x 192 image of zeros. *)
Definition img192 : ndarray :=
  {| shape := [192; 192]; data := repeat zero (Z.to_nat (192 * 192)) |}.

(** A 50 x 50 image of zeros. *)
Definition img50 : ndarray :=
  {| shape := [50; 50]; data := repeat zero (Z.to_nat (50 * 50)) |}.

(** A 3 x 3 image, an 8 x 8 image of zeros, and a 2 x 2 image of three
    channels. *)
Definition img3 : ndarray :=
  {| shape := [3; 3]; data := map of_Z [1; 2; 3; 4; 5; 6; 7; 8; 9] |}.


Definition img2_colour : ndarray :=
  {| shape := [2; 2; 3]; data := repeat zero 12 |}.

(** Matrices and vectors of the examples: [d] times the identity, the
    matrix of NaNs, the first unit vector, and a sample whose only row
    starts with a NaN. *)
Definition diag_matrix (n : nat) (d : float) : matrix :=
  map (fun i => map (fun j => if Nat.eqb i j then d else zero) (seq 0 n))
      (seq 0 n).

Definition nan_matrix (n : nat) : matrix := repeat (repeat nan n) n.

Definition unit_vector (n : nat) : list float :=
  map (fun j => if Nat.eqb j 0 then one else zero) (seq 0 n).


(** A stand-in for the Gamma function that is constant.  With it every
    candidate of the grid fits equally well, [alpha] is the first
    candidate 0.2 and the two [beta] are the two root mean squares, so
    that the features of a block are computed from its pixels alone. *)
Definition gamma_flat (x : float) : float := one.

(** The features of a block under [gamma_flat], in closed form. *)
Definition flat_estimate (block : list (list float))
  : float * float * float :=
  (dec 2 10,
   mul (left_std (concat block)) (beta_factor gamma_flat (dec 2 10)),
   mul (right_std (concat block)) (beta_factor gamma_flat (dec 2 10))).

Definition flat_shift (block : list (list float)) (s : Z * Z) : list float :=
  let '(alpha, beta_l, beta_r) :=
    flat_estimate (Np.mul2 block (Np.roll (fst s) (snd s) block)) in
  [alpha;
   mul (sub beta_r beta_l)
       (div (gamma_flat (div (of_Z 2) alpha)) (gamma_flat (div one alpha)));
   beta_l; beta_r].

Definition flat_features (block : list (list float)) : list float :=
  [fst (fst (flat_estimate block));
   div (add (snd (fst (flat_estimate block))) (snd (flat_estimate block)))
       (of_Z 2)]
  ++ flat_shift block (0, 1) ++ flat_shift block (1, 0)
  ++ flat_shift block (1, 1) ++ flat_shift block (1, -1).

(** The window [[0, 0, 1]] of one row, and what
    [convolve(_, window, mode='nearest')] computes with it: entry [j] of
    each row becomes entry [j - 1], and the first entry stays. *)
Definition window_prev : image := [[zero; zero; one]].

Definition convolve_prev (img window : image) : image :=
  map (fun row => match row with
                  | [] => []
                  | x :: _ => x :: removelast row
                  end) img.

(** A 16 x 8 image of two equal 8 x 8 blocks, one above the other.  Each
    row is a wave that rises and falls by 10 a pixel between 100 and 140,
    or the same wave upside down. *)
Definition wave_up : list float :=
  map of_Z [100; 110; 120; 130; 140; 130; 120; 110].

Definition wave_down : list float :=
  map of_Z [140; 130; 120; 110; 100; 110; 120; 130].

Definition wave_block : image :=
  [wave_up; wave_up; wave_down; wave_down;
   wave_down; wave_down; wave_up; wave_up].

Definition img_waves : ndarray :=
  {| shape := [16; 8]; data := concat (wave_block ++ wave_block) |}.

(** The normalized block of [img_waves] at each scale (both blocks are
    the same), with [convolve_prev] and [resize_sample]. *)
Definition wave_block_1 : image :=
  block_at (normalize convolve_prev (rows_of img_waves) window_prev)
           8 8 1 0 0.

Definition wave_block_2 : image :=
  block_at (normalize convolve_prev
              (map_img (fun x => mul x (of_Z 255))
                 (halve (map_img (fun x => div x (of_Z 255))
                           (rows_of img_waves))))
              window_prev)
           8 8 2 0 0.

(** The row of 36 features of either block under [gamma_flat]. *)
Definition waves_row : list float :=
  Eval vm_compute in flat_features wave_block_1 ++ flat_features wave_block_2.

(** [np.cov] and [np.linalg.pinv] at the arguments of the examples: the
    covariance of fewer than two rows is the matrix of NaNs and that of
    two equal rows the zero matrix; the pseudo-inverse fails on a matrix
    that holds a NaN, and the matrices [-I] and [I] are their own
    pseudo-inverses. *)
Definition np_cov_sample (rows : list (list float)) : matrix :=
  match rows with
  | _ :: _ :: _ => diag_matrix 36 zero
  | _ => nan_matrix 36
  end.

Definition pinv_sample (m : matrix) : result matrix :=
  if existsb (existsb is_nan) m then Raise LinAlgError else Ok m.


(** * Properties *)

(** ** Facts of binary64 arithmetic *)

Lemma binary_round_aux_sign (sx : bool) (mx ex : Z) (lx : location) :
  match binary_round_aux prec emax sx mx ex lx with
  | S754_nan => True
  | S754_zero s | S754_infinity s | S754_finite s _ _ => s = sx
  end.
Proof.
  unfold binary_round_aux.
  destruct (shr_fexp prec emax mx ex lx) as [mrs' e'].
  destruct (shr_fexp prec emax _ e' loc_Exact) as [mrs'' e''].
  destruct (shr_m mrs''); auto.
  destruct (e'' <=? emax - prec); auto.
Qed.

Lemma sqrt_sign_ok (x : float) : sign_ok (sqrt x).
Proof.
  destruct x as [s | [|] | | [|] m e]; simpl; auto.
  unfold sqrt, SFsqrt.
  destruct (SFsqrt_core_binary prec emax (Z.pos m) e) as [[mz ez] lz].
  pose proof (binary_round_aux_sign false mz ez lz) as H.
  destruct (binary_round_aux prec emax false mz ez lz); simpl; auto.
Qed.

Lemma mul_sign_ok (x y : float) : sign_ok x -> sign_ok y -> sign_ok (mul x y).
Proof.
  destruct x as [sx | sx | | sx mx ex], y as [sy | sy | | sy my ey];
    simpl; intros Hx Hy; subst; auto.
  unfold mul, SFmul.
  pose proof (binary_round_aux_sign (xorb false false)
                (Z.pos (mx * my)) (ex + ey) loc_Exact) as H.
  destruct (binary_round_aux prec emax (xorb false false) _ _ loc_Exact);
    simpl; auto.
Qed.

(** A float whose sign is not negative is NaN or compares [0 <= x]. *)
Lemma sign_ok_nan_or_nonneg (x : float) :
  sign_ok x -> is_nan x = true \/ leb zero x = true.
Proof.
  destruct x as [s | s | | s m e]; simpl; intros H; subst; auto.
Qed.

Lemma shr_1_nonneg (mrs : shr_record) :
  0 <= shr_m mrs -> 0 <= shr_m (shr_1 mrs).
Proof.
  destruct mrs as [m r s]. simpl.
  destruct m as [| p | p]; simpl; try lia; destruct p; simpl; lia.
Qed.

Lemma iter_shr_1_nonneg (p : positive) :
  forall mrs, 0 <= shr_m mrs -> 0 <= shr_m (iter_pos shr_1 p mrs).
Proof.
  induction p as [p IH | p IH |]; intros mrs H; simpl.
  - apply IH, IH, shr_1_nonneg, H.
  - apply IH, IH, H.
  - apply shr_1_nonneg, H.
Qed.

Lemma shr_fexp_nonneg (m e : Z) (l : location) :
  0 <= m -> 0 <= shr_m (fst (shr_fexp prec emax m e l)).
Proof.
  intros H. unfold shr_fexp, shr.
  assert (H0 : 0 <= shr_m (shr_record_of_loc m l))
    by (destruct l as [| []]; exact H).
  destruct (fexp prec emax (Zdigits2 m + e) - e); simpl; auto.
  now apply iter_shr_1_nonneg.
Qed.

Lemma round_nearest_even_nonneg (mx : Z) (lx : location) :
  0 <= mx -> 0 <= round_nearest_even mx lx.
Proof.
  intros H. unfold round_nearest_even.
  destruct lx as [| []]; try lia. destruct (Z.even mx); lia.
Qed.

Lemma binary_round_aux_not_nan (sx : bool) (mx ex : Z) (lx : location) :
  0 <= mx -> binary_round_aux prec emax sx mx ex lx <> S754_nan.
Proof.
  intros H. unfold binary_round_aux.
  pose proof (shr_fexp_nonneg mx ex lx H) as H1.
  destruct (shr_fexp prec emax mx ex lx) as [mrs' e']. simpl in H1.
  pose proof (shr_fexp_nonneg _ e' loc_Exact
                (round_nearest_even_nonneg _ (loc_of_shr_record mrs') H1)) as H2.
  destruct (shr_fexp prec emax _ e' loc_Exact) as [mrs'' e'']. simpl in H2.
  destruct (shr_m mrs''); try lia; try discriminate.
  destruct (e'' <=? emax - prec); discriminate.
Qed.

Lemma binary_round_aux_nonneg (mx ex : Z) (lx : location) :
  0 <= mx -> nonneg (binary_round_aux prec emax false mx ex lx).
Proof.
  intros H.
  pose proof (binary_round_aux_sign false mx ex lx) as Hs.
  pose proof (binary_round_aux_not_nan false mx ex lx H) as Hn.
  destruct (binary_round_aux prec emax false mx ex lx); simpl; auto.
Qed.

Lemma of_Z_nonneg (z : Z) : 0 <= z -> nonneg (of_Z z).
Proof.
  intros H. unfold of_Z, binary_normalize.
  destruct z as [| p | p]; [exact I | | lia].
  unfold binary_round.
  destruct (shl_align p 0 _) as [mz ez].
  apply binary_round_aux_nonneg. lia.
Qed.

Lemma mul_nonneg_finite (x : float) (m : positive) (e : Z) :
  nonneg x -> nonneg (mul x (S754_finite false m e)).
Proof.
  destruct x as [sx | sx | | sx mx ex]; simpl; intros Hx; subst; auto.
  apply (binary_round_aux_nonneg (Z.pos (mx * m)) (ex + e) loc_Exact). lia.
Qed.

Lemma add_finite_nonneg (m : positive) (e : Z) (y : float) :
  nonneg y -> nonneg (add (S754_finite false m e) y).
Proof.
  destruct y as [sy | sy | | sy my ey]; simpl; intros Hy; subst; auto;
    try contradiction.
  unfold add, SFadd, cond_Zopp, binary_normalize.
  destruct (shl_align m e (Z.min e ey)) as [m1 e1].
  destruct (shl_align my ey (Z.min e ey)) as [m2 e2]. simpl fst.
  change (Z.pos m1 + Z.pos m2) with (Z.pos (m1 + m2)).
  unfold binary_round.
  destruct (shl_align (m1 + m2) (Z.min e ey) _) as [mz ez].
  apply binary_round_aux_nonneg. lia.
Qed.

Lemma nonneg_not_nan_leb (x : float) :
  nonneg x -> is_nan x = false /\ leb zero x = true.
Proof.
  destruct x as [s | s | | s m e]; simpl; intros H; subst; auto.
  contradiction.
Qed.

Lemma sub_nan_r (x : float) : sub x nan = nan.
Proof. destruct x as [s | s | | s m e]; reflexivity. Qed.

Lemma mul_nan_r (x : float) : mul x nan = nan.
Proof. destruct x as [s | s | | s m e]; reflexivity. Qed.

Lemma div_nan_r (x : float) : div x nan = nan.
Proof. destruct x as [s | s | | s m e]; reflexivity. Qed.

Lemma mean_nil : Np.mean [] = nan.
Proof. reflexivity. Qed.

(** ** The candidate grid *)


Lemma gam_length : length gam = Z.to_nat 9801.
Proof.
  unfold gam, Np.arange. rewrite length_map, length_seq.
  vm_compute. reflexivity.
Qed.

Lemma gam_nth (i : nat) :
  (i < Z.to_nat 9801)%nat ->
  nth i gam nan = Np.arange_entry (dec 2 10) (dec 1 1000) i.
Proof.
  intros Hi. pose proof gam_length as Hlen.
  unfold gam, Np.arange in *.
  rewrite length_map, length_seq in Hlen. rewrite Hlen.
  rewrite (nth_indep _ nan (Np.arange_entry (dec 2 10) (dec 1 1000) O))
    by now rewrite length_map, length_seq.
  rewrite (map_nth (Np.arange_entry (dec 2 10) (dec 1 1000))).
  now rewrite seq_nth.
Qed.

Lemma gam_first : nth 0 gam nan = dec 2 10.
Proof. rewrite gam_nth; [reflexivity | lia]. Qed.

#[global] Opaque gam.

(** Every candidate is a number that is not negative. *)
Lemma arange_entry_nonneg (i : nat) :
  nonneg (Np.arange_entry (dec 2 10) (dec 1 1000) i).
Proof.
  unfold Np.arange_entry.
  destruct i as [| [| i]]; [vm_compute; reflexivity .. |].
  change (dec 2 10) with (S754_finite false 7205759403792794 (-55)) at 1.
  change (sub (add (dec 2 10) (dec 1 1000)) (dec 2 10))
    with (S754_finite false 4611686018427392 (-62)).
  apply add_finite_nonneg, mul_nonneg_finite, of_Z_nonneg. lia.
Qed.

Lemma gam_last :
  near_milli (Np.arange_entry (dec 2 10) (dec 1 1000) (Z.to_nat 9800)) 10000
  = true.
Proof. vm_compute. reflexivity. Qed.

Lemma r_gam_length (gamma : float -> float) :
  length (r_gam gamma) = length gam.
Proof. unfold r_gam, gam_reciprocal. now rewrite !length_map. Qed.

(** ** [np.argmin] returns an index of its argument *)

Lemma argmin_scan_bound (l : list float) :
  forall mp min_ind i, (min_ind < i)%nat ->
    (Np.argmin_scan mp min_ind i l < i + length l)%nat.
Proof.
  induction l as [| x rest IH]; intros mp min_ind i Hlt; simpl.
  - lia.
  - destruct (negb (leb mp x)).
    + destruct (is_nan x).
      * lia.
      * specialize (IH x i (S i)). lia.
    + specialize (IH mp min_ind (S i)). lia.
Qed.

Lemma argmin_bound (l : list float) :
  l <> [] -> (Np.argmin l < length l)%nat.
Proof.
  destruct l as [| x rest]; [congruence |]. intros _. simpl.
  destruct (is_nan x); [lia |].
  pose proof (argmin_scan_bound rest x O 1%nat). lia.
Qed.

Lemma argmin_nan_head (x : float) (rest : list float) :
  is_nan x = true -> Np.argmin (x :: rest) = O.
Proof. intros H. simpl. now rewrite H. Qed.

Lemma array_position_bound (gamma : float -> float) (block : list float) :
  (array_position gamma block < length gam)%nat.
Proof.
  unfold array_position.
  rewrite <- (r_gam_length gamma).
  rewrite <- (length_map (fun r => square (sub r (rhatnorm_of block)))
                (r_gam gamma)).
  apply argmin_bound.
  intros Heq. apply (f_equal (@length float)) in Heq.
  rewrite length_map, r_gam_length, gam_length in Heq. discriminate.
Qed.

(** ** Properties of [estimate_aggd_param] *)

Lemma left_std_sign (block : list float) : sign_ok (left_std block).
Proof. apply sqrt_sign_ok. Qed.

Lemma right_std_sign (block : list float) : sign_ok (right_std block).
Proof. apply sqrt_sign_ok. Qed.

Lemma beta_factor_sign (gamma : float -> float) (alpha : float) :
  sign_ok (beta_factor gamma alpha).
Proof. apply sqrt_sign_ok. Qed.

(** C6. For every block and every Gamma routine, [estimate_aggd_param]
    is a total function whose [alpha] is one of the 9801 candidates of
    [np.arange(0.2, 10.001, 0.001)] (candidate [i] is [0.2 + i * delta],
    from 0.2 to the float next to 10.0), never NaN and never negative,
    and whose [beta_l] and [beta_r] are each NaN or compare [>= 0]. *)
Theorem C6_estimate_aggd_param_range
  (gamma : float -> float) (block : list (list float)) :
  let '(alpha, beta_l, beta_r) := estimate_aggd_param gamma block in
  In alpha gam /\
  length gam = Z.to_nat 9801 /\
  (exists i : nat, (i < Z.to_nat 9801)%nat /\
     alpha = Np.arange_entry (dec 2 10) (dec 1 1000) i) /\
  Np.arange_entry (dec 2 10) (dec 1 1000) O = dec 2 10 /\
  near_milli (Np.arange_entry (dec 2 10) (dec 1 1000) (Z.to_nat 9800)) 10000
    = true /\
  (is_nan alpha = false /\ leb zero alpha = true) /\
  (is_nan beta_l = true \/ leb zero beta_l = true) /\
  (is_nan beta_r = true \/ leb zero beta_r = true).
Proof.
  unfold estimate_aggd_param.
  pose proof (array_position_bound gamma (concat block)) as Hpos.
  refine (conj (nth_In _ _ Hpos) (conj gam_length (conj _
           (conj eq_refl (conj gam_last (conj _ (conj _ _))))))).
  - exists (array_position gamma (concat block)).
    rewrite gam_length in Hpos. split; [exact Hpos |].
    now apply gam_nth.
  - rewrite gam_nth by (rewrite <- gam_length; exact Hpos).
    apply nonneg_not_nan_leb, arange_entry_nonneg.
  - apply sign_ok_nan_or_nonneg, mul_sign_ok;
      [apply left_std_sign | apply beta_factor_sign].
  - apply sign_ok_nan_or_nonneg, mul_sign_ok;
      [apply right_std_sign | apply beta_factor_sign].
Qed.

(** With no strictly negative entry the left deviation is the root of an
    empty mean, NaN; likewise on the right. *)
Lemma left_std_no_negative (block : list float) :
  no_negative block -> left_std block = nan.
Proof.
  intros H. unfold left_std.
  replace (filter (fun x => ltb x zero) block) with (@nil float).
  - reflexivity.
  - symmetry. induction H as [| x l Hx Hl IH]; simpl; [reflexivity |].
    now rewrite Hx.
Qed.

Lemma right_std_no_positive (block : list float) :
  no_positive block -> right_std block = nan.
Proof.
  intros H. unfold right_std.
  replace (filter (fun x => ltb zero x) block) with (@nil float).
  - reflexivity.
  - symmetry. induction H as [| x l Hx Hl IH]; simpl; [reflexivity |].
    now rewrite Hx.
Qed.

Lemma rhatnorm_of_gammahat_nan (block : list float) :
  div (left_std block) (right_std block) = nan -> rhatnorm_of block = nan.
Proof.
  intros H. unfold rhatnorm_of. rewrite H.
  change (cube nan) with nan. change (add nan one) with nan.
  rewrite mul_nan_r. reflexivity.
Qed.

Lemma rhatnorm_of_one_sided (block : list float) :
  no_negative block \/ no_positive block -> rhatnorm_of block = nan.
Proof.
  intros [H | H]; apply rhatnorm_of_gammahat_nan.
  - now rewrite (left_std_no_negative _ H).
  - rewrite (right_std_no_positive _ H). apply div_nan_r.
Qed.

Lemma array_position_nan (gamma : float -> float) (block : list float) :
  rhatnorm_of block = nan -> array_position gamma block = O.
Proof.
  intros H. unfold array_position. rewrite H.
  destruct (r_gam gamma) as [| r rest]; [reflexivity |].
  simpl map. apply argmin_nan_head. now rewrite sub_nan_r.
Qed.

Lemma estimate_aggd_param_one_sided
  (gamma : float -> float) (block : list (list float)) :
  no_negative (concat block) \/ no_positive (concat block) ->
  estimate_aggd_param gamma block
    = (dec 2 10,
       mul (left_std (concat block)) (beta_factor gamma (dec 2 10)),
       mul (right_std (concat block)) (beta_factor gamma (dec 2 10))).
Proof.
  intros H. unfold estimate_aggd_param.
  rewrite (array_position_nan gamma _ (rhatnorm_of_one_sided _ H)).
  now rewrite gam_first.
Qed.

(** C10, as the code has it. For a block with no strictly negative entry,
    or none strictly positive, [alpha] is the first candidate 0.2 (the
    squared errors are all NaN and [argmin] answers 0), so [alpha] is not
    NaN; [beta_l] is NaN when no entry is negative and [beta_r] is NaN
    when no entry is positive.  Each is the product of its own side's
    deviation with the common factor, so the side that has entries is not
    forced to NaN. *)
Theorem C10_one_sided_block
  (gamma : float -> float) (block : list (list float)) :
  no_negative (concat block) \/ no_positive (concat block) ->
  let '(alpha, beta_l, beta_r) := estimate_aggd_param gamma block in
  alpha = dec 2 10 /\
  is_nan alpha = false /\
  beta_l = mul (left_std (concat block)) (beta_factor gamma (dec 2 10)) /\
  beta_r = mul (right_std (concat block)) (beta_factor gamma (dec 2 10)) /\
  (no_negative (concat block) -> is_nan beta_l = true) /\
  (no_positive (concat block) -> is_nan beta_r = true).
Proof.
  intros H. rewrite (estimate_aggd_param_one_sided gamma block H).
  refine (conj eq_refl (conj eq_refl (conj eq_refl (conj eq_refl (conj _ _))))).
  - intros Hn. now rewrite (left_std_no_negative _ Hn).
  - intros Hp. now rewrite (right_std_no_positive _ Hp).
Qed.

Lemma C10_one_sided_block_witness :
  (no_negative (concat [[zero]]) \/ no_positive (concat [[zero]])) /\
  (let '(alpha, beta_l, beta_r) := estimate_aggd_param gamma_sample [[zero]] in
   alpha = dec 2 10 /\
   is_nan alpha = false /\
   beta_l = mul (left_std (concat [[zero]]))
                (beta_factor gamma_sample (dec 2 10)) /\
   beta_r = mul (right_std (concat [[zero]]))
                (beta_factor gamma_sample (dec 2 10)) /\
   (no_negative (concat [[zero]]) -> is_nan beta_l = true) /\
   (no_positive (concat [[zero]]) -> is_nan beta_r = true)).
Proof.
  split.
  - left. repeat constructor.
  - apply (C10_one_sided_block gamma_sample [[zero]]).
    left. repeat constructor.
Defined.

(** C10 fails as stated: the one-pixel block [[1.0]] has no negative
    entry, its [alpha] is 0.2 and its [beta_l] is NaN, but its [beta_r] is
    [1 * sqrt(Gamma(5) / Gamma(15))], a positive number.  The same holds
    for every Gamma routine that is exact at 5 and 15. *)
Lemma C10_counterexample :
  no_negative (concat [[one]]) /\
  estimate_aggd_param gamma_sample [[one]]
    = (dec 2 10, nan, sqrt (div (of_Z 24) (of_Z 87178291200))) /\
  is_nan (sqrt (div (of_Z 24) (of_Z 87178291200))) = false /\
  ltb zero (sqrt (div (of_Z 24) (of_Z 87178291200))) = true /\
  (forall gamma : float -> float,
      gamma (of_Z 5) = of_Z 24 ->
      gamma (of_Z 15) = of_Z 87178291200 ->
      snd (estimate_aggd_param gamma [[one]])
        = sqrt (div (of_Z 24) (of_Z 87178291200))).
Proof.
  assert (Hn : no_negative (concat [[one]])) by (repeat constructor).
  split; [exact Hn |].
  split.
  { rewrite (estimate_aggd_param_one_sided gamma_sample [[one]] (or_introl Hn)).
    vm_compute. reflexivity. }
  split; [vm_compute; reflexivity |].
  split; [vm_compute; reflexivity |].
  intros gamma H5 H15.
  rewrite (estimate_aggd_param_one_sided gamma [[one]] (or_introl Hn)).
  unfold snd, beta_factor.
  change (div one (dec 2 10)) with (of_Z 5).
  change (div (of_Z 3) (dec 2 10)) with (of_Z 15).
  rewrite H5, H15. vm_compute. reflexivity.
Qed.

(** ** Properties of [compute_feature] *)

Lemma roll1_length {A : Type} (s : Z) (l : list A) :
  length (Np.roll1 s l) = length l.
Proof.
  unfold Np.roll1. rewrite length_app, length_skipn, length_firstn. lia.
Qed.

(** [np.roll] is circular: position [i] receives position
    [(i - shift) mod n]. *)
Lemma roll1_nth {A : Type} (s : Z) (l : list A) (d : A) (i : nat) :
  (i < length l)%nat ->
  nth i (Np.roll1 s l) d
  = nth (Z.to_nat ((Z.of_nat i - s) mod Z.of_nat (length l))) l d.
Proof.
  intros Hi. unfold Np.roll1.
  assert (Hn : 0 < Z.of_nat (length l)) by lia.
  assert (Hi' : 0 <= Z.of_nat i < Z.of_nat (length l)) by lia.
  assert (Hlen : length l = Z.to_nat (Z.of_nat (length l))) by lia.
  revert Hn Hi' Hlen. generalize (Z.of_nat (length l)). intros n Hn Hi' Hlen.
  remember ((n - s mod n) mod n) as kz eqn:Ek.
  assert (Hk : 0 <= kz < n) by (subst kz; apply Z.mod_pos_bound; lia).
  assert (Hidx : (Z.of_nat i - s) mod n
                 = if Z.of_nat i <? n - kz
                   then kz + Z.of_nat i else Z.of_nat i - (n - kz)).
  { revert Hi'. generalize (Z.of_nat i). intros z Hz.
    rewrite <- Zminus_mod_idemp_r.
    pose proof (Z.mod_pos_bound s n Hn) as Hr.
    revert Ek Hr. generalize (s mod n). intros r Ek Hr.
    assert (Hkz : kz = if r =? 0 then 0 else n - r).
    { subst kz. destruct (Z.eqb_spec r 0) as [-> | Hr0].
      - rewrite Z.sub_0_r. apply Z_mod_same_full.
      - apply Z.mod_small. lia. }
    clear Ek.
    destruct (Z.eqb_spec r 0) as [-> | Hr0]; subst kz.
    - rewrite Z.sub_0_r, Z.mod_small by lia.
      destruct (Z.ltb_spec z (n - 0)); lia.
    - destruct (Z.ltb_spec z (n - (n - r))) as [Hlt | Hge].
      + rewrite <- (Z_mod_plus_full (z - r) 1 n).
        rewrite Z.mod_small by lia. lia.
      + rewrite Z.mod_small by lia. lia. }
  rewrite Hidx.
  destruct (Z.ltb_spec (Z.of_nat i) (n - kz)) as [Hlt | Hge].
  - rewrite app_nth1 by (rewrite length_skipn; lia).
    rewrite nth_skipn. f_equal. lia.
  - rewrite app_nth2 by (rewrite length_skipn; lia).
    rewrite length_skipn, nth_firstn.
    destruct (Nat.ltb_spec (i - (length l - Z.to_nat kz)) (Z.to_nat kz));
      [f_equal; lia | lia].
Qed.

Lemma roll_nth (s0 s1 : Z) (block : list (list float)) (w i j : nat) :
  Forall (fun row => length row = w) block ->
  (i < length block)%nat -> (j < w)%nat ->
  nth j (nth i (Np.roll s0 s1 block) []) nan
  = nth (Z.to_nat ((Z.of_nat j - s1) mod Z.of_nat w))
        (nth (Z.to_nat ((Z.of_nat i - s0) mod Z.of_nat (length block)))
             block []) nan.
Proof.
  intros Hrect Hi Hj. unfold Np.roll.
  rewrite (nth_indep _ [] (Np.roll1 s1 []))
    by (now rewrite length_map, roll1_length).
  rewrite (map_nth (Np.roll1 s1)).
  rewrite (roll1_nth s0 block [] i Hi).
  set (row := nth _ block []).
  assert (Hrow : length row = w).
  { rewrite Forall_forall in Hrect. apply Hrect. unfold row.
    apply nth_In.
    pose proof (Z.mod_pos_bound (Z.of_nat i - s0) (Z.of_nat (length block))).
    lia. }
  rewrite (roll1_nth s1 row nan j) by lia.
  now rewrite Hrow.
Qed.

Lemma mul1_nth (a b : list float) (j : nat) :
  (j < length a)%nat -> (j < length b)%nat ->
  nth j (Np.mul1 a b) nan = mul (nth j a nan) (nth j b nan).
Proof.
  revert b j. induction a as [| x a IH]; intros [| y b] [| j]; simpl;
    intros Ha Hb; try lia; [reflexivity |].
  apply IH; lia.
Qed.

Lemma mul2_nth (a b : list (list float)) (i : nat) :
  (i < length a)%nat -> (i < length b)%nat ->
  nth i (Np.mul2 a b) [] = Np.mul1 (nth i a []) (nth i b []).
Proof.
  revert b i. induction a as [| x a IH]; intros [| y b] [| i]; simpl;
    intros Ha Hb; try lia; [reflexivity |].
  apply IH; lia.
Qed.

(** The four values a shift contributes, from the fit of the product. *)
Lemma shift_features_eq
  (gamma : float -> float) (block : list (list float)) (s : Z * Z) :
  shift_features gamma block s
  = (let '(alpha, beta_l, beta_r) :=
       estimate_aggd_param gamma
         (Np.mul2 block (Np.roll (fst s) (snd s) block)) in
     [alpha;
      mul (sub beta_r beta_l)
          (div (gamma (div (of_Z 2) alpha)) (gamma (div one alpha)));
      beta_l; beta_r]).
Proof. reflexivity. Qed.

Lemma shift_features_length
  (gamma : float -> float) (block : list (list float)) (s : Z * Z) :
  length (shift_features gamma block s) = 4%nat.
Proof.
  rewrite shift_features_eq.
  now destruct (estimate_aggd_param gamma _) as [[alpha beta_l] beta_r].
Qed.

Lemma compute_feature_unfold
  (gamma : float -> float) (block : list (list float)) :
  compute_feature gamma block
  = [fst (fst (estimate_aggd_param gamma block));
     div (add (snd (fst (estimate_aggd_param gamma block)))
              (snd (estimate_aggd_param gamma block))) (of_Z 2)]
    ++ shift_features gamma block (0, 1)
    ++ shift_features gamma block (1, 0)
    ++ shift_features gamma block (1, 1)
    ++ shift_features gamma block (1, -1).
Proof.
  unfold compute_feature, shifts.
  destruct (estimate_aggd_param gamma block) as [[alpha beta_l] beta_r].
  cbn [fold_left fst snd]. now rewrite <- !app_assoc.
Qed.

Lemma compute_feature_length
  (gamma : float -> float) (block : list (list float)) :
  length (compute_feature gamma block) = 18%nat.
Proof.
  rewrite compute_feature_unfold, !length_app, !shift_features_length.
  reflexivity.
Qed.

(** C7. [compute_feature] returns 18 values: the block's own [alpha] and
    [(beta_l + beta_r) / 2], then for the shifts (0,1), (1,0), (1,1) and
    (1,-1), in this order, the four values [alpha],
    [(beta_r - beta_l) * Gamma(2/alpha) / Gamma(1/alpha)], [beta_l],
    [beta_r] of the fit of [block * np.roll(block, shift)].  On a block of
    [w] columns, entry [(i, j)] of that product is the block's entry
    times its entry at row [(i - s0) mod h], column [(j - s1) mod w]: the
    shift wraps around on both axes. *)
Theorem C7_compute_feature_layout
  (gamma : float -> float) (block : list (list float)) (w : nat) :
  Forall (fun row => length row = w) block ->
  let fit := fun s0 s1 : Z =>
    estimate_aggd_param gamma (Np.mul2 block (Np.roll s0 s1 block)) in
  let four := fun p : float * float * float =>
    let '(alpha, beta_l, beta_r) := p in
    [alpha;
     mul (sub beta_r beta_l)
         (div (gamma (div (of_Z 2) alpha)) (gamma (div one alpha)));
     beta_l; beta_r] in
  let '(alpha0, beta_l0, beta_r0) := estimate_aggd_param gamma block in
  compute_feature gamma block
  = [alpha0; div (add beta_l0 beta_r0) (of_Z 2)]
    ++ four (fit 0 1) ++ four (fit 1 0) ++ four (fit 1 1) ++ four (fit 1 (-1))
  /\ length (compute_feature gamma block) = 18%nat
  /\ forall (s0 s1 : Z) (i j : nat),
       (i < length block)%nat -> (j < w)%nat ->
       nth j (nth i (Np.mul2 block (Np.roll s0 s1 block)) []) nan
       = mul (nth j (nth i block []) nan)
             (nth (Z.to_nat ((Z.of_nat j - s1) mod Z.of_nat w))
                  (nth (Z.to_nat ((Z.of_nat i - s0)
                                    mod Z.of_nat (length block)))
                       block []) nan).
Proof.
  intros Hrect fit four.
  pose proof (compute_feature_unfold gamma block) as Hcf.
  pose proof (compute_feature_length gamma block) as Hlen.
  destruct (estimate_aggd_param gamma block) as [[alpha0 beta_l0] beta_r0].
  split; [exact Hcf | split; [exact Hlen |]].
  intros s0 s1 i j Hi Hj.
  assert (Hrl : length (Np.roll s0 s1 block) = length block)
    by (unfold Np.roll; now rewrite length_map, roll1_length).
  rewrite mul2_nth by lia.
  assert (Hrow : length (nth i block []) = w).
  { rewrite Forall_forall in Hrect. now apply Hrect, nth_In. }
  assert (Hrow' : length (nth i (Np.roll s0 s1 block) []) = w).
  { unfold Np.roll.
    rewrite (nth_indep _ [] (Np.roll1 s1 []))
      by (now rewrite length_map, roll1_length).
    rewrite (map_nth (Np.roll1 s1)), roll1_length.
    rewrite (roll1_nth s0 block [] i Hi).
    rewrite Forall_forall in Hrect. apply Hrect, nth_In.
    pose proof (Z.mod_pos_bound (Z.of_nat i - s0) (Z.of_nat (length block))).
    lia. }
  rewrite mul1_nth by lia.
  now rewrite (roll_nth s0 s1 block w i j Hrect Hi Hj).
Qed.

Lemma C7_compute_feature_layout_witness :
  Forall (fun row => length row = 2%nat)
         [[of_Z 1; of_Z (-2)]; [of_Z (-3); of_Z 4]] /\
  length (compute_feature gamma_sample
            [[of_Z 1; of_Z (-2)]; [of_Z (-3); of_Z 4]]) = 18%nat.
Proof.
  split.
  - repeat constructor.
  - pose proof (C7_compute_feature_layout gamma_sample
                  [[of_Z 1; of_Z (-2)]; [of_Z (-3); of_Z 4]] 2%nat) as H.
    cbv zeta in H.
    destruct (estimate_aggd_param gamma_sample
                [[of_Z 1; of_Z (-2)]; [of_Z (-3); of_Z 4]])
      as [[alpha0 beta_l0] beta_r0].
    apply H. repeat constructor.
Defined.

(** ** The block loop of [niqe] *)

Lemma range_length (n : Z) : length (range n) = Z.to_nat n.
Proof. unfold range. now rewrite length_map, length_seq. Qed.

Lemma range_nth (n : Z) (k : nat) :
  (k < Z.to_nat n)%nat -> nth k (range n) 0 = Z.of_nat k.
Proof.
  intros Hk. unfold range.
  change 0 with (Z.of_nat O). rewrite map_nth, seq_nth by exact Hk.
  reflexivity.
Qed.

(** Entry [k] of a [flat_map] whose pieces all have [n] entries. *)
Lemma flat_map_nth {A B : Type} (f : A -> list B) (n : nat) (da : A) (d : B) :
  forall (l : list A) (k : nat),
    (forall a, length (f a) = n) ->
    (k < length l * n)%nat ->
    nth k (flat_map f l) d = nth (k mod n) (f (nth (k / n) l da)) d.
Proof.
  induction l as [| a l IH]; intros k Hn Hk; simpl in Hk; [lia |].
  assert (Hpos : (0 < n)%nat) by lia.
  simpl flat_map.
  destruct (Nat.lt_ge_cases k n) as [Hlt | Hge].
  - rewrite app_nth1 by (rewrite Hn; exact Hlt).
    rewrite Nat.div_small, Nat.mod_small by exact Hlt. reflexivity.
  - rewrite app_nth2 by (rewrite Hn; exact Hge).
    rewrite Hn, IH by (auto; lia).
    assert (Hk' : k = (k - n + 1 * n)%nat) by lia.
    rewrite Hk' at 3 4.
    rewrite Nat.div_add, Nat.Div0.mod_add by lia.
    replace (((k - n) / n + 1)%nat) with (S ((k - n) / n)) by lia.
    reflexivity.
Qed.

Lemma block_indices_length (num_block_h num_block_w : Z) :
  length (block_indices num_block_h num_block_w)
  = (Z.to_nat num_block_w * Z.to_nat num_block_h)%nat.
Proof.
  unfold block_indices.
  generalize (range_length num_block_w).
  generalize (range num_block_w) as ws. intros ws <-.
  induction ws as [| a ws IH]; [reflexivity |].
  simpl. rewrite length_app, length_map, range_length, IH. reflexivity.
Qed.

(** The loops visit the blocks column by column: the [k]-th visit is row
    [k mod num_block_h] of column [k / num_block_h]. *)
Lemma block_indices_nth (num_block_h num_block_w : Z) (k : nat) :
  (k < Z.to_nat num_block_w * Z.to_nat num_block_h)%nat ->
  nth k (block_indices num_block_h num_block_w) (0, 0)
  = (Z.of_nat (k mod Z.to_nat num_block_h),
     Z.of_nat (k / Z.to_nat num_block_h)).
Proof.
  intros Hk. unfold block_indices.
  assert (Hh : (0 < Z.to_nat num_block_h)%nat) by nia.
  rewrite (flat_map_nth _ (Z.to_nat num_block_h) 0 (0, 0)).
  - rewrite (range_nth num_block_w)
      by (apply Nat.Div0.div_lt_upper_bound; lia).
    set (idx_w := Z.of_nat (k / Z.to_nat num_block_h)).
    rewrite (nth_indep _ (0, 0) ((fun idx_h => (idx_h, idx_w)) 0))
      by (rewrite length_map, range_length; apply Nat.mod_upper_bound; lia).
    rewrite (map_nth (fun idx_h => (idx_h, idx_w))).
    rewrite range_nth by (apply Nat.mod_upper_bound; lia).
    reflexivity.
  - intros a. now rewrite length_map, range_length.
  - now rewrite range_length.
Qed.

Lemma py_slice_nth {A : Type} (a b : Z) (l : list A) (d : A) (i : nat) :
  0 <= a -> (Z.of_nat i < b - a) ->
  nth i (py_slice a b l) d = nth (Z.to_nat a + i) l d.
Proof.
  intros Ha Hi. unfold py_slice.
  rewrite nth_firstn.
  destruct (Nat.ltb_spec i (Z.to_nat (b - a))); [| lia].
  now rewrite nth_skipn.
Qed.

Lemma py_slice_nil {A : Type} (a b : Z) : py_slice a b (@nil A) = [].
Proof. unfold py_slice. now rewrite skipn_nil, firstn_nil. Qed.

Lemma slice2_nth (r0 r1 c0 c1 : Z) (img : image) (i j : nat) :
  0 <= r0 -> 0 <= c0 ->
  Z.of_nat i < r1 - r0 -> Z.of_nat j < c1 - c0 ->
  nth j (nth i (slice2 r0 r1 c0 c1 img) []) nan
  = nth (Z.to_nat c0 + j) (nth (Z.to_nat r0 + i) img []) nan.
Proof.
  intros Hr Hc Hi Hj. unfold slice2.
  transitivity
    (nth j (nth i (map (py_slice c0 c1) (py_slice r0 r1 img))
                  (py_slice c0 c1 [])) nan);
    [now rewrite py_slice_nil |].
  rewrite (map_nth (py_slice c0 c1)).
  rewrite (py_slice_nth r0 r1 img [] i Hr Hi).
  now apply py_slice_nth.
Qed.

Lemma scale_features_length
  (gamma : float -> float) (convolve : image -> image -> image)
  (img window : image)
  (num_block_h num_block_w block_size_h block_size_w scale : Z) :
  length (scale_features gamma convolve img window num_block_h num_block_w
                         block_size_h block_size_w scale)
  = (Z.to_nat num_block_w * Z.to_nat num_block_h)%nat.
Proof.
  unfold scale_features. now rewrite length_map, block_indices_length.
Qed.

Lemma scale_features_row_length
  (gamma : float -> float) (convolve : image -> image -> image)
  (img window : image)
  (num_block_h num_block_w block_size_h block_size_w scale : Z) :
  Forall (fun row => length row = 18%nat)
    (scale_features gamma convolve img window num_block_h num_block_w
                    block_size_h block_size_w scale).
Proof.
  unfold scale_features. rewrite Forall_map, Forall_forall.
  intros idx _. apply compute_feature_length.
Qed.

Lemma scale_features_nth
  (gamma : float -> float) (convolve : image -> image -> image)
  (img window : image)
  (num_block_h num_block_w block_size_h block_size_w scale : Z) (k : nat) :
  (k < Z.to_nat num_block_w * Z.to_nat num_block_h)%nat ->
  nth k (scale_features gamma convolve img window num_block_h num_block_w
                        block_size_h block_size_w scale) []
  = compute_feature gamma
      (block_at (normalize convolve img window)
                block_size_h block_size_w scale
                (Z.of_nat (k mod Z.to_nat num_block_h))
                (Z.of_nat (k / Z.to_nat num_block_h))).
Proof.
  intros Hk. unfold scale_features.
  set (F := fun idx : Z * Z => compute_feature gamma _).
  rewrite (nth_indep _ [] (F (0, 0)))
    by (now rewrite length_map, block_indices_length).
  rewrite (map_nth F), block_indices_nth by exact Hk.
  reflexivity.
Qed.

(** C4, as the code has it. At either scale the [k]-th feature row is
    the feature vector of the block in row [k mod num_block_h] and column
    [k / num_block_h] (the outer loop runs over the columns), cut from the
    normalised image between the row bounds
    [idx_h * block_size_h // scale] and [(idx_h + 1) * block_size_h // scale]
    and the like column bounds: the product is divided, not the block
    size.  The bounds are multiples of [block_size // scale] when the
    scale divides the block size, as at scale 1 and for even sizes. *)
Theorem C4_block_slices
  (gamma : float -> float) (convolve : image -> image -> image)
  (img window : image)
  (num_block_h num_block_w block_size_h block_size_w scale : Z) (k : nat) :
  0 < scale -> 0 <= block_size_h -> 0 <= block_size_w ->
  (k < Z.to_nat num_block_w * Z.to_nat num_block_h)%nat ->
  let idx_h := Z.of_nat (k mod Z.to_nat num_block_h) in
  let idx_w := Z.of_nat (k / Z.to_nat num_block_h) in
  let r0 := idx_h * block_size_h / scale in
  let r1 := (idx_h + 1) * block_size_h / scale in
  let c0 := idx_w * block_size_w / scale in
  let c1 := (idx_w + 1) * block_size_w / scale in
  let img_nomalized := normalize convolve img window in
  nth k (block_indices num_block_h num_block_w) (0, 0) = (idx_h, idx_w) /\
  nth k (scale_features gamma convolve img window num_block_h num_block_w
                        block_size_h block_size_w scale) []
  = compute_feature gamma (slice2 r0 r1 c0 c1 img_nomalized) /\
  (forall i j : nat,
      Z.of_nat i < r1 - r0 -> Z.of_nat j < c1 - c0 ->
      nth j (nth i (slice2 r0 r1 c0 c1 img_nomalized) []) nan
      = nth (Z.to_nat c0 + j) (nth (Z.to_nat r0 + i) img_nomalized []) nan) /\
  ((scale | block_size_h) ->
   r0 = idx_h * (block_size_h / scale) /\
   r1 = (idx_h + 1) * (block_size_h / scale)) /\
  ((scale | block_size_w) ->
   c0 = idx_w * (block_size_w / scale) /\
   c1 = (idx_w + 1) * (block_size_w / scale)).
Proof.
  intros Hs Hbh Hbw Hk idx_h idx_w r0 r1 c0 c1 img_nomalized.
  split; [now apply block_indices_nth |].
  split; [now rewrite scale_features_nth by exact Hk |].
  split.
  - intros i j Hi Hj. apply slice2_nth; try assumption.
    + unfold r0, idx_h. apply Z.div_pos; [nia | exact Hs].
    + unfold c0, idx_w. apply Z.div_pos; [nia | exact Hs].
  - split; intros Hdiv; unfold r0, r1, c0, c1;
      rewrite !Z.divide_div_mul_exact by (try exact Hdiv; lia); auto.
Qed.

Lemma C4_block_slices_witness :
  (0 < 2 /\ 0 <= 96 /\ 0 <= 96 /\
   (3 < Z.to_nat 2 * Z.to_nat 2)%nat) /\
  nth 3 (block_indices 2 2) (0, 0) = (1, 1) /\
  1 * 96 / 2 = 1 * (96 / 2).
Proof.
  assert (H0 : 0 < 2) by lia.
  assert (H1 : 0 <= 96) by lia.
  assert (H2 : (3 < Z.to_nat 2 * Z.to_nat 2)%nat) by (simpl; lia).
  pose proof (C4_block_slices gamma_sample convolve_impulse [] []
                2 2 96 96 2 3%nat H0 H1 H1 H2) as H.
  cbv zeta in H. destruct H as (Hidx & _ & _ & Hh & _).
  split; [repeat split; assumption |].
  split; [exact Hidx |].
  apply Hh. exists 48. reflexivity.
Defined.

(** C4 fails as stated for an odd block size. A 194 x 194 image with
    97 x 97 blocks has two blocks each way; at scale 2 the block of row
    index 1 spans the rows [97 // 2 = 48] to [2 * 97 // 2 = 97], while
    multiples of [97 // 2] would give 48 to 96. *)
Lemma C4_counterexample :
  niqe_entry {| shape := [194; 194];
                data := repeat zero (Z.to_nat (194 * 194)) |} 97 97
  = Ok (2, 2) /\
  In (1, 1) (block_indices 2 2) /\
  block_bounds 97 97 2 1 1 = (48, 97, 48, 97) /\
  (1 * (97 / 2), (1 + 1) * (97 / 2), 1 * (97 / 2), (1 + 1) * (97 / 2))
  = (48, 96, 48, 96) /\
  block_bounds 97 97 2 1 1
  <> (1 * (97 / 2), (1 + 1) * (97 / 2), 1 * (97 / 2), (1 + 1) * (97 / 2)).
Proof.
  split; [reflexivity |].
  split; [simpl; auto |].
  split; [reflexivity |].
  split; [reflexivity |].
  discriminate.
Qed.

(** ** The feature matrix of [niqe] *)

Lemma zip_with_length {A B C : Type} (f : A -> B -> C)
  (a : list A) (b : list B) :
  length (zip_with f a b) = Nat.min (length a) (length b).
Proof.
  revert b. induction a as [| x a IH]; intros [| y b]; simpl; auto.
Qed.

Lemma zip_with_app_rows (n m : nat) (a b : list (list float)) :
  Forall (fun row => length row = n) a ->
  Forall (fun row => length row = m) b ->
  Forall (fun row => length row = (n + m)%nat) (zip_with (@app float) a b).
Proof.
  intros Ha. revert b. induction Ha as [| x a Hx Ha IH]; intros b Hb.
  - constructor.
  - destruct Hb as [| y b Hy Hb]; simpl; constructor.
    + rewrite length_app. lia.
    + now apply IH.
Qed.

Lemma niqe_entry_2d (img : ndarray) (h w block_size_h block_size_w : Z) :
  shape img = [h; w] -> block_size_h <> 0 -> block_size_w <> 0 ->
  niqe_entry img block_size_h block_size_w
  = Ok (h / block_size_h, w / block_size_w).
Proof.
  intros Hshape Hh Hw. unfold niqe_entry, ndim. rewrite Hshape. simpl.
  destruct (Z.eqb_spec block_size_h 0); [contradiction |].
  destruct (Z.eqb_spec block_size_w 0); [contradiction |].
  reflexivity.
Qed.

(** The state after the two turns of the loop over the scales: the
    resize of line 111 sits between the two passes over the blocks. *)
Lemma scale_loop_unfold
  (gamma : float -> float) (convolve : image -> image -> image)
  (imresize : image -> result image) (window img : image)
  (num_block_h num_block_w block_size_h block_size_w : Z) :
  for_each
    (scale_step gamma convolve imresize window num_block_h num_block_w
                block_size_h block_size_w)
    [1; 2] (img, [])
  = match imresize (map_img (fun x => div x (of_Z 255)) img) with
    | Ok resized =>
        let img2 := map_img (fun x => mul x (of_Z 255)) resized in
        Ok (img2,
            [scale_features gamma convolve img window num_block_h
                            num_block_w block_size_h block_size_w 1;
             scale_features gamma convolve img2 window num_block_h
                            num_block_w block_size_h block_size_w 2])
    | Raise e => Raise e
    end.
Proof.
  cbn [for_each]. unfold scale_step at 1. unfold next_scale at 1.
  cbn [Z.eqb Pos.eqb bind].
  destruct (imresize (map_img (fun x => div x (of_Z 255)) img))
    as [resized | e]; reflexivity.
Qed.

Lemma np_concatenate_two (a b : list (list float)) :
  a <> [] -> length b = length a ->
  np_concatenate_axis1 [a; b] = Ok (zip_with (@app float) a b).
Proof.
  intros Ha Hlen. destruct a as [| x a]; [congruence |].
  destruct b as [| y b]; [discriminate |].
  unfold np_concatenate_axis1, concatenate_rows.
  now rewrite Hlen, Nat.eqb_refl.
Qed.

(** With at least one block each way the feature matrix is built once
    the resize has returned, whatever the sign of the block sizes; when
    the resize raises, its exception ends the call. *)
Lemma niqe_distparam_blocks
  (gamma : float -> float) (convolve : image -> image -> image)
  (imresize : image -> result image) (img : ndarray) (window : image)
  (h w block_size_h block_size_w : Z) :
  shape img = [h; w] -> block_size_h <> 0 -> block_size_w <> 0 ->
  0 < h / block_size_h -> 0 < w / block_size_w ->
  let num_block_h := h / block_size_h in
  let num_block_w := w / block_size_w in
  let cropped := slice2 0 (num_block_h * block_size_h)
                        0 (num_block_w * block_size_w) (rows_of img) in
  let feat1 := scale_features gamma convolve cropped window
                 num_block_h num_block_w block_size_h block_size_w 1 in
  niqe_distparam gamma convolve imresize img window block_size_h block_size_w
  = match imresize (map_img (fun x => div x (of_Z 255)) cropped) with
    | Ok resized =>
        Ok (zip_with (@app float) feat1
              (scale_features gamma convolve
                 (map_img (fun x => mul x (of_Z 255)) resized)
                 window num_block_h num_block_w block_size_h block_size_w 2))
    | Raise e => Raise e
    end.
Proof.
  intros Hshape Hh Hw Hnh Hnw num_block_h num_block_w cropped feat1.
  assert (Hl1 : length feat1 = Z.to_nat (num_block_h * num_block_w))
    by (unfold feat1; rewrite scale_features_length; lia).
  unfold niqe_distparam.
  rewrite (niqe_entry_2d img h w) by assumption.
  unfold bind at 1. rewrite scale_loop_unfold. fold num_block_h num_block_w.
  fold cropped.
  destruct (imresize (map_img (fun x => div x (of_Z 255)) cropped))
    as [resized | e]; [| reflexivity].
  cbv zeta. unfold bind. cbn [snd]. fold feat1.
  apply np_concatenate_two.
  - intros Hnil.
    assert (H0 : length feat1 = 0%nat) by (now rewrite Hnil).
    unfold num_block_h, num_block_w in *. nia.
  - rewrite Hl1, scale_features_length. lia.
Qed.

Lemma niqe_distparam_shape
  (gamma : float -> float) (convolve : image -> image -> image)
  (imresize : image -> result image) (img : ndarray) (window : image)
  (h w block_size_h block_size_w : Z) :
  shape img = [h; w] ->
  0 < block_size_h <= h -> 0 < block_size_w <= w ->
  let num_block_h := h / block_size_h in
  let num_block_w := w / block_size_w in
  let cropped := slice2 0 (num_block_h * block_size_h)
                        0 (num_block_w * block_size_w) (rows_of img) in
  let feat1 := scale_features gamma convolve cropped window
                 num_block_h num_block_w block_size_h block_size_w 1 in
  length feat1 = Z.to_nat (num_block_h * num_block_w) /\
  Forall (fun row => length row = 18%nat) feat1 /\
  0 < num_block_h * num_block_w /\
  match imresize (map_img (fun x => div x (of_Z 255)) cropped) with
  | Ok resized =>
      let feat2 := scale_features gamma convolve
                     (map_img (fun x => mul x (of_Z 255)) resized)
                     window num_block_h num_block_w
                     block_size_h block_size_w 2 in
      let distparam := zip_with (@app float) feat1 feat2 in
      niqe_distparam gamma convolve imresize img window
                     block_size_h block_size_w
      = Ok distparam /\
      length feat2 = Z.to_nat (num_block_h * num_block_w) /\
      Forall (fun row => length row = 18%nat) feat2 /\
      length distparam = Z.to_nat (num_block_h * num_block_w) /\
      Forall (fun row => length row = 36%nat) distparam
  | Raise e =>
      niqe_distparam gamma convolve imresize img window
                     block_size_h block_size_w
      = Raise e
  end.
Proof.
  intros Hshape Hh Hw num_block_h num_block_w cropped feat1.
  assert (Hnh : 0 < num_block_h)
    by (apply Z.div_str_pos; lia).
  assert (Hnw : 0 < num_block_w)
    by (apply Z.div_str_pos; lia).
  assert (Hl1 : length feat1 = Z.to_nat (num_block_h * num_block_w))
    by (unfold feat1; rewrite scale_features_length; lia).
  assert (Hr1 : Forall (fun row => length row = 18%nat) feat1)
    by apply scale_features_row_length.
  split; [exact Hl1 |]. split; [exact Hr1 |]. split; [nia |].
  pose proof (niqe_distparam_blocks gamma convolve imresize img window
                h w block_size_h block_size_w Hshape
                ltac:(lia) ltac:(lia) Hnh Hnw) as Hrun.
  cbv zeta in Hrun. fold num_block_h num_block_w cropped feat1 in Hrun.
  destruct (imresize (map_img (fun x => div x (of_Z 255)) cropped))
    as [resized | e]; [| exact Hrun].
  intros feat2 distparam.
  assert (Hl2 : length feat2 = Z.to_nat (num_block_h * num_block_w))
    by (unfold feat2; rewrite scale_features_length; lia).
  assert (Hr2 : Forall (fun row => length row = 18%nat) feat2)
    by apply scale_features_row_length.
  split; [exact Hrun |]. split; [exact Hl2 |]. split; [exact Hr2 |].
  split; [unfold distparam; rewrite zip_with_length; lia |].
  apply (zip_with_app_rows 18 18); assumption.
Qed.

(** The sizes of the end-to-end scenario: 192 x 192 pixels in 96 x 96
    blocks give 2 x 2 blocks and, once the resize has returned, a matrix
    of 4 rows and 36 columns, whatever the pixels and the library
    routines are. *)
Example distparam_192x192
  (gamma : float -> float) (convolve : image -> image -> image)
  (imresize : image -> result image) (pixels : list float)
  (window resized : image) :
  imresize (map_img (fun x => div x (of_Z 255))
              (slice2 0 192 0 192
                 (rows_of {| shape := [192; 192]; data := pixels |})))
  = Ok resized ->
  exists distparam : list (list float),
    niqe_distparam gamma convolve imresize
      {| shape := [192; 192]; data := pixels |} window 96 96 = Ok distparam /\
    length distparam = 4%nat /\
    Forall (fun row => length row = 36%nat) distparam.
Proof.
  intros Hres.
  assert (H0 : 0 < 96 <= 192) by lia.
  pose proof (niqe_distparam_shape gamma convolve imresize
                {| shape := [192; 192]; data := pixels |} window
                192 192 96 96 eq_refl H0 H0) as H.
  cbv zeta in H. destruct H as (_ & _ & _ & H).
  change (192 / 96 * 96) with 192 in H. rewrite Hres in H.
  destruct H as (Hrun & _ & _ & Hlen & Hrows).
  eexists. split; [exact Hrun |]. split; [exact Hlen | exact Hrows].
Qed.

(** C8. For a two-dimensional image that holds at least one block each
    way, [niqe] builds the feature matrix as soon as the resize between
    the scales returns (its exception is the only way to fail before):
    each scale yields [num_block_h * num_block_w] rows of 18 features
    (the block counts are those of the cropped original at both scales),
    and the matrix joined along the columns has that many rows of 36
    entries. *)
Theorem C8_distparam_shape
  (gamma : float -> float) (convolve : image -> image -> image)
  (imresize : image -> result image) (img : ndarray) (window : image)
  (h w block_size_h block_size_w : Z) :
  shape img = [h; w] ->
  0 < block_size_h <= h -> 0 < block_size_w <= w ->
  let num_block_h := h / block_size_h in
  let num_block_w := w / block_size_w in
  let cropped := slice2 0 (num_block_h * block_size_h)
                        0 (num_block_w * block_size_w) (rows_of img) in
  let feat1 := scale_features gamma convolve cropped window
                 num_block_h num_block_w block_size_h block_size_w 1 in
  length feat1 = Z.to_nat (num_block_h * num_block_w) /\
  Forall (fun row => length row = 18%nat) feat1 /\
  0 < num_block_h * num_block_w /\
  match imresize (map_img (fun x => div x (of_Z 255)) cropped) with
  | Ok resized =>
      let feat2 := scale_features gamma convolve
                     (map_img (fun x => mul x (of_Z 255)) resized)
                     window num_block_h num_block_w
                     block_size_h block_size_w 2 in
      let distparam := zip_with (@app float) feat1 feat2 in
      niqe_distparam gamma convolve imresize img window
                     block_size_h block_size_w
      = Ok distparam /\
      length feat2 = Z.to_nat (num_block_h * num_block_w) /\
      Forall (fun row => length row = 18%nat) feat2 /\
      length distparam = Z.to_nat (num_block_h * num_block_w) /\
      Forall (fun row => length row = 36%nat) distparam
  | Raise e =>
      niqe_distparam gamma convolve imresize img window
                     block_size_h block_size_w
      = Raise e
  end.
Proof.
  exact (niqe_distparam_shape gamma convolve imresize img window
           h w block_size_h block_size_w).
Qed.

Lemma resize_sample_img192 :
  resize_sample
    (map_img (fun x => div x (of_Z 255))
       (slice2 0 (192 / 96 * 96) 0 (192 / 96 * 96) (rows_of img192)))
  = Ok (halve
          (map_img (fun x => div x (of_Z 255))
             (slice2 0 (192 / 96 * 96) 0 (192 / 96 * 96) (rows_of img192)))).
Proof.
  unfold resize_sample.
  set (scaled := map_img _ _).
  assert (H : (Z.of_nat (length scaled) <? 8) || (frame_width scaled <? 8)
              = false) by (vm_compute; reflexivity).
  now rewrite H.
Qed.

Lemma C8_distparam_shape_witness :
  (shape img192 = [192; 192] /\ 0 < 96 <= 192) /\
  exists distparam : list (list float),
    niqe_distparam gamma_sample convolve_impulse resize_sample img192
      window_impulse 96 96
    = Ok distparam /\
    length distparam = 4%nat /\
    Forall (fun row => length row = 36%nat) distparam.
Proof.
  assert (H0 : 0 < 96 <= 192) by lia.
  split; [split; [reflexivity | exact H0] |].
  pose proof (C8_distparam_shape gamma_sample convolve_impulse resize_sample
                img192 window_impulse 192 192 96 96 eq_refl H0 H0) as H.
  cbv zeta in H. destruct H as (_ & _ & _ & H).
  rewrite resize_sample_img192 in H.
  destruct H as (Hrun & _ & _ & Hlen & Hrows).
  eexists. split; [exact Hrun |]. split; [exact Hlen | exact Hrows].
Defined.

(** ** The guard of [niqe] *)

Lemma niqe_entry_not_2d (img : ndarray) (block_size_h block_size_w : Z) :
  ndim img <> 2%nat ->
  niqe_entry img block_size_h block_size_w = Raise AssertionError.
Proof.
  intros H. unfold niqe_entry.
  destruct (Nat.eqb_spec (ndim img) 2); [contradiction | reflexivity].
Qed.

Lemma block_indices_empty (num_block_h num_block_w : Z) :
  num_block_h <= 0 \/ num_block_w <= 0 ->
  block_indices num_block_h num_block_w = [].
Proof.
  intros H. apply length_zero_iff_nil. rewrite block_indices_length. lia.
Qed.

(** With no block to visit, scale 1 leaves [feat] empty and the cropped
    image goes to the resize of line 111.  If the resize raises, that is
    the end of the call; if it returns, scale 2 leaves [feat] empty too
    and [np.concatenate] has no axis 1 to join along. *)
Lemma niqe_distparam_no_block
  (gamma : float -> float) (convolve : image -> image -> image)
  (imresize : image -> result image) (img : ndarray) (window : image)
  (h w block_size_h block_size_w : Z) :
  shape img = [h; w] -> block_size_h <> 0 -> block_size_w <> 0 ->
  h / block_size_h <= 0 \/ w / block_size_w <= 0 ->
  niqe_distparam gamma convolve imresize img window block_size_h block_size_w
  = match imresize
            (map_img (fun x => div x (of_Z 255))
               (slice2 0 (h / block_size_h * block_size_h)
                       0 (w / block_size_w * block_size_w) (rows_of img)))
    with
    | Ok _ => Raise AxisError
    | Raise e => Raise e
    end.
Proof.
  intros Hshape Hh Hw Hnb. unfold niqe_distparam.
  rewrite (niqe_entry_2d img h w) by assumption.
  unfold bind at 1. rewrite scale_loop_unfold.
  destruct (imresize _) as [resized | e]; [| reflexivity].
  cbv zeta. unfold bind. cbn [snd].
  unfold scale_features. rewrite (block_indices_empty _ _ Hnb).
  reflexivity.
Qed.

(** C2, as the code has it. An input that is not two-dimensional fails
    the [assert] of line 86 before anything is computed.  A
    two-dimensional image smaller than one block (of positive size) in
    either direction passes it: a block count is 0, the loop over the
    blocks runs no iteration and extracts no feature, and the cropped
    image goes to the resize of line 111.  The call ends in the exception
    of that resize when it raises, and in the [AxisError] of
    [np.concatenate] when it returns. *)
Theorem C2_shape_guard
  (gamma : float -> float) (convolve : image -> image -> image)
  (imresize : image -> result image) (np_cov : list (list float) -> matrix)
  (pinv : matrix -> result matrix)
  (img : ndarray) (mu_pris_param : list float) (cov_pris_param : matrix)
  (window : image) (h w block_size_h block_size_w : Z) :
  ndim img <> 2%nat \/
  (shape img = [h; w] /\ 0 <= h /\ 0 <= w /\
   0 < block_size_h /\ 0 < block_size_w /\
   (h < block_size_h \/ w < block_size_w)) ->
  (ndim img <> 2%nat ->
   niqe_entry img block_size_h block_size_w = Raise AssertionError /\
   niqe gamma convolve imresize np_cov pinv img mu_pris_param cov_pris_param
        window block_size_h block_size_w = Raise AssertionError) /\
  (ndim img = 2%nat ->
   niqe_entry img block_size_h block_size_w
   = Ok (h / block_size_h, w / block_size_w) /\
   (h / block_size_h = 0 \/ w / block_size_w = 0) /\
   block_indices (h / block_size_h) (w / block_size_w) = [] /\
   (forall (any : image) (scale : Z),
       scale_features gamma convolve any window
         (h / block_size_h) (w / block_size_w)
         block_size_h block_size_w scale = []) /\
   niqe gamma convolve imresize np_cov pinv img mu_pris_param cov_pris_param
        window block_size_h block_size_w
   = match imresize
             (map_img (fun x => div x (of_Z 255))
                (slice2 0 (h / block_size_h * block_size_h)
                        0 (w / block_size_w * block_size_w) (rows_of img)))
     with
     | Ok _ => Raise AxisError
     | Raise e => Raise e
     end).
Proof.
  intros H. split.
  - intros Hnd. rewrite (niqe_entry_not_2d _ _ _ Hnd).
    split; [reflexivity |].
    unfold niqe, niqe_distparam.
    now rewrite (niqe_entry_not_2d _ _ _ Hnd).
  - intros Hnd. destruct H as [H | (Hshape & Hh0 & Hw0 & Hbh & Hbw & Hsmall)];
      [contradiction |].
    assert (Hnb : h / block_size_h = 0 \/ w / block_size_w = 0)
      by (destruct Hsmall; [left | right]; apply Z.div_small; lia).
    assert (Hnb' : h / block_size_h <= 0 \/ w / block_size_w <= 0) by lia.
    split; [apply niqe_entry_2d; (assumption || lia) |].
    split; [exact Hnb |].
    split; [now apply block_indices_empty |].
    split.
    + intros any scale. unfold scale_features.
      now rewrite block_indices_empty.
    + unfold niqe.
      rewrite (niqe_distparam_no_block _ _ _ img window h w)
        by (assumption || lia).
      destruct (imresize _); reflexivity.
Qed.

Lemma C2_shape_guard_witness :
  (ndim img50 <> 2%nat \/
   (shape img50 = [50; 50] /\ 0 <= 50 /\ 0 <= 50 /\
    0 < 96 /\ 0 < 96 /\ (50 < 96 \/ 50 < 96))) /\
  niqe gamma_sample convolve_impulse resize_sample
       (fun _ => []) (fun m => Ok m) img50 [] [] window_impulse 96 96
  = Raise RuntimeError.
Proof.
  assert (H : ndim img50 <> 2%nat \/
              (shape img50 = [50; 50] /\ 0 <= 50 /\ 0 <= 50 /\
               0 < 96 /\ 0 < 96 /\ (50 < 96 \/ 50 < 96)))
    by (right; repeat split; (reflexivity || lia)).
  split; [exact H |].
  pose proof (C2_shape_guard gamma_sample convolve_impulse resize_sample
                (fun _ => []) (fun m => Ok m) img50 [] [] window_impulse
                50 50 96 96 H)
    as [_ H2].
  destruct (H2 eq_refl) as (_ & _ & _ & _ & Hrun).
  exact Hrun.
Defined.

(** C2 fails as stated: the 50 x 50 image with 96 x 96 blocks is not
    rejected by the guard.  The block counts are 0 and 0, the loop over
    the blocks runs without visiting any, the cropped image is empty, and
    the call goes on to resize it.  Whatever the library routines are,
    the call ends the way that resize ends: in its exception, or in the
    [AxisError] of line 114 if it returns.  With a resize that raises
    [RuntimeError] on the empty image, as the repository's does, the
    caller sees that [RuntimeError], which is not a failure of the
    guard. *)
Lemma C2_counterexample :
  niqe_entry img50 96 96 = Ok (0, 0) /\
  block_indices 0 0 = [] /\
  map_img (fun x => div x (of_Z 255))
    (slice2 0 (50 / 96 * 96) 0 (50 / 96 * 96) (rows_of img50)) = [] /\
  (forall (gamma : float -> float) (convolve : image -> image -> image)
          (imresize : image -> result image)
          (np_cov : list (list float) -> matrix)
          (pinv : matrix -> result matrix)
          (mu_pris_param : list float) (cov_pris_param : matrix)
          (window : image),
      niqe gamma convolve imresize np_cov pinv img50
           mu_pris_param cov_pris_param window 96 96
      = match imresize [] with
        | Ok _ => Raise AxisError
        | Raise e => Raise e
        end) /\
  (forall (gamma : float -> float) (convolve : image -> image -> image)
          (imresize : image -> result image)
          (np_cov : list (list float) -> matrix)
          (pinv : matrix -> result matrix)
          (mu_pris_param : list float) (cov_pris_param : matrix)
          (window : image),
      imresize [] = Raise RuntimeError ->
      niqe gamma convolve imresize np_cov pinv img50
           mu_pris_param cov_pris_param window 96 96
      = Raise RuntimeError) /\
  resize_sample [] = Raise RuntimeError /\
  Raise (A := float) RuntimeError <> Raise AssertionError /\
  Raise (A := float) AxisError <> Raise AssertionError.
Proof.
  assert (Hcrop : map_img (fun x => div x (of_Z 255))
                    (slice2 0 (50 / 96 * 96) 0 (50 / 96 * 96)
                            (rows_of img50)) = []) by reflexivity.
  assert (Hrun : forall (gamma : float -> float)
                        (convolve : image -> image -> image)
                        (imresize : image -> result image)
                        (np_cov : list (list float) -> matrix)
                        (pinv : matrix -> result matrix)
                        (mu_pris_param : list float)
                        (cov_pris_param : matrix) (window : image),
             niqe gamma convolve imresize np_cov pinv img50
                  mu_pris_param cov_pris_param window 96 96
             = match imresize [] with
               | Ok _ => Raise AxisError
               | Raise e => Raise e
               end).
  { intros. unfold niqe.
    rewrite (niqe_distparam_no_block _ _ _ img50 window 50 50);
      [| reflexivity | lia | lia | left; reflexivity].
    rewrite Hcrop. destruct (imresize []); reflexivity. }
  split; [reflexivity |].
  split; [reflexivity |].
  split; [exact Hcrop |].
  split; [exact Hrun |].
  split; [intros; rewrite Hrun; now rewrite H |].
  split; [reflexivity |].
  split; discriminate.
Qed.

(** ** The final comparison of [niqe] *)

Lemma zip_with_nth {A B C : Type} (f : A -> B -> C)
  (a : list A) (b : list B) (da : A) (db : B) (d : C) (j : nat) :
  (j < length a)%nat -> (j < length b)%nat ->
  nth j (zip_with f a b) d = f (nth j a da) (nth j b db).
Proof.
  revert b j. induction a as [| x a IH]; intros [| y b] [| j]; simpl;
    intros Ha Hb; try lia; [reflexivity |].
  apply IH; lia.
Qed.

(** Column [j] of a matrix of [n] columns holds entry [j] of every row. *)
Lemma transpose_spec (n : nat) (m : list (list float)) :
  m <> [] -> Forall (fun row => length row = n) m ->
  length (transpose m) = n /\
  forall j : nat, (j < n)%nat ->
    nth j (transpose m) [] = map (fun row => nth j row nan) m.
Proof.
  induction m as [| r m IH]; [congruence |]. intros _ Hrect.
  inversion Hrect as [| r' m' Hr Hm]; subst r' m'.
  destruct m as [| r2 m].
  - simpl. rewrite length_map. split; [exact Hr |].
    intros j Hj.
    rewrite (nth_indep _ [] ((fun x => [x]) nan))
      by (now rewrite length_map, Hr).
    now rewrite (map_nth (fun x => [x])).
  - destruct (IH ltac:(discriminate) Hm) as [Hlen Hcol].
    change (transpose (r :: r2 :: m))
      with (zip_with cons r (transpose (r2 :: m))).
    split; [rewrite zip_with_length; lia |].
    intros j Hj.
    rewrite (zip_with_nth cons r _ nan [] [] j) by lia.
    now rewrite (Hcol j Hj).
Qed.

Lemma distparam_no_nan_spec (distparam : list (list float)) :
  Forall (fun row => Forall (fun x => is_nan x = false) row)
         (distparam_no_nan distparam) /\
  (forall row, In row (distparam_no_nan distparam) <->
               In row distparam /\ row_has_nan row = false).
Proof.
  unfold distparam_no_nan. split.
  - rewrite Forall_forall. intros row Hin.
    apply filter_In in Hin. destruct Hin as [_ Hno].
    apply negb_true_iff in Hno. unfold row_has_nan in Hno.
    rewrite Forall_forall. intros x Hx.
    destruct (is_nan x) eqn:E; [| reflexivity].
    assert (existsb is_nan row = true)
      by (apply existsb_exists; now exists x).
    congruence.
  - intros row. rewrite filter_In, negb_true_iff. reflexivity.
Qed.

Lemma niqe_aggregate_unfold
  (np_cov : list (list float) -> matrix) (pinv : matrix -> result matrix)
  (mu_pris_param : list float) (cov_pris_param : matrix)
  (distparam : list (list float)) :
  niqe_aggregate np_cov pinv mu_pris_param cov_pris_param distparam
  = match pinv (pooled cov_pris_param
                       (np_cov (distparam_no_nan distparam))) with
    | Ok invcov_param =>
        Ok (sqrt (quadratic_form
                    (zip_with sub mu_pris_param (nanmean_axis0 distparam))
                    invcov_param))
    | Raise e => Raise e
    end.
Proof. reflexivity. Qed.

(** On a column without NaN the NaN-aware mean is the plain mean. *)
Lemma nanmean_no_nan (col : list float) :
  Forall (fun x => is_nan x = false) col -> nanmean col = Np.mean col.
Proof.
  intros H. unfold nanmean, Np.mean, count_not_nan.
  assert (Hmap : map nan_to_zero col = col).
  { induction H as [| x l Hx Hl IH]; [reflexivity |].
    simpl. unfold nan_to_zero at 1. now rewrite Hx, IH. }
  assert (Hflt : filter (fun x => negb (is_nan x)) col = col).
  { clear Hmap. induction H as [| x l Hx Hl IH]; [reflexivity |].
    simpl. rewrite Hx. simpl. now rewrite IH. }
  now rewrite Hmap, Hflt.
Qed.

(** C5. The mean vector takes each column on its own: entry [j] is the
    sum of column [j] over all rows, a NaN entry counting as 0, divided
    by the number of entries of that column that are not NaN (the plain
    mean when the column has no NaN).  The covariance routine receives the rows that hold no NaN in any column,
    in their order, and no other row.  Both feed the score. *)
Theorem C5_nan_policies
  (np_cov : list (list float) -> matrix) (pinv : matrix -> result matrix)
  (mu_pris_param : list float) (cov_pris_param : matrix)
  (distparam : list (list float)) (n : nat) :
  distparam <> [] ->
  Forall (fun row => length row = n) distparam ->
  length (nanmean_axis0 distparam) = n /\
  (forall j : nat, (j < n)%nat ->
     let column := map (fun row => nth j row nan) distparam in
     nth j (nanmean_axis0 distparam) nan
     = div (Np.sum (map (fun x => if is_nan x then zero else x) column))
           (of_Z (Z.of_nat
                    (length (filter (fun x => negb (is_nan x)) column))))) /\
  (forall j : nat, (j < n)%nat ->
     let column := map (fun row => nth j row nan) distparam in
     Forall (fun x => is_nan x = false) column ->
     nth j (nanmean_axis0 distparam) nan = Np.mean column) /\
  distparam_no_nan distparam
  = filter (fun row => negb (existsb is_nan row)) distparam /\
  Forall (fun row => Forall (fun x => is_nan x = false) row)
         (distparam_no_nan distparam) /\
  (forall row, In row (distparam_no_nan distparam) <->
               In row distparam /\ existsb is_nan row = false) /\
  niqe_aggregate np_cov pinv mu_pris_param cov_pris_param distparam
  = match pinv (pooled cov_pris_param
                       (np_cov (distparam_no_nan distparam))) with
    | Ok invcov_param =>
        Ok (sqrt (quadratic_form
                    (zip_with sub mu_pris_param (nanmean_axis0 distparam))
                    invcov_param))
    | Raise e => Raise e
    end.
Proof.
  intros Hne Hrect.
  destruct (transpose_spec n distparam Hne Hrect) as [Hlen Hcol].
  split; [unfold nanmean_axis0; now rewrite length_map |].
  split.
  - intros j Hj column. unfold nanmean_axis0.
    rewrite (nth_indep _ nan (nanmean [])) by (now rewrite length_map, Hlen).
    rewrite (map_nth nanmean), (Hcol j Hj). reflexivity.
  - split.
    { intros j Hj column Hclean. unfold nanmean_axis0.
      rewrite (nth_indep _ nan (nanmean []))
        by (now rewrite length_map, Hlen).
      rewrite (map_nth nanmean), (Hcol j Hj). fold column.
      now apply nanmean_no_nan. }
    split; [reflexivity |].
    destruct (distparam_no_nan_spec distparam) as [Hall Hin].
    split; [exact Hall |]. split; [exact Hin |].
    apply niqe_aggregate_unfold.
Qed.

Lemma C5_nan_policies_witness :
  ([[of_Z 1; nan]; [of_Z 3; of_Z 4]] <> [] /\
   Forall (fun row => length row = 2%nat)
          [[of_Z 1; nan]; [of_Z 3; of_Z 4]]) /\
  length (nanmean_axis0 [[of_Z 1; nan]; [of_Z 3; of_Z 4]]) = 2%nat /\
  distparam_no_nan [[of_Z 1; nan]; [of_Z 3; of_Z 4]]
  = filter (fun row => negb (existsb is_nan row))
           [[of_Z 1; nan]; [of_Z 3; of_Z 4]].
Proof.
  assert (H1 : [[of_Z 1; nan]; [of_Z 3; of_Z 4]] <> []) by discriminate.
  assert (H2 : Forall (fun row => length row = 2%nat)
                      [[of_Z 1; nan]; [of_Z 3; of_Z 4]])
    by (repeat constructor).
  split; [split; assumption |].
  pose proof (C5_nan_policies (fun _ => []) (fun m => Ok m) [] []
                [[of_Z 1; nan]; [of_Z 3; of_Z 4]] 2%nat H1 H2) as H.
  destruct H as (Hlen & _ & _ & Hflt & _).
  split; [exact Hlen | exact Hflt].
Defined.

(** The two policies on one matrix: the first row has a NaN in its second
    column; its 1 still enters the mean of the first column, which is
    (1 + 3) / 2 = 2, while the covariance sees the second row only. *)
Example nan_policies_differ :
  nanmean_axis0 [[of_Z 1; nan]; [of_Z 3; of_Z 4]] = [of_Z 2; of_Z 4] /\
  distparam_no_nan [[of_Z 1; nan]; [of_Z 3; of_Z 4]] = [[of_Z 3; of_Z 4]].
Proof. split; vm_compute; reflexivity. Qed.

(** ** The square root of line 127 *)

Lemma sqrt_negative (x : float) : ltb x zero = true -> sqrt x = nan.
Proof.
  destruct x as [s | [|] | | [|] m e]; simpl; intros H;
    try reflexivity; try discriminate; destruct s; discriminate.
Qed.

Lemma sqrt_nan (x : float) : is_nan x = true -> sqrt x = nan.
Proof. destruct x; simpl; intros H; try discriminate; reflexivity. Qed.

(** C1, as the code has it. When the pseudo-inverse returns, the score is
    the square root of the quadratic form, taken as it is: the score is
    NaN or compares [>= 0], and it is NaN whenever the quadratic form is
    negative or NaN.  Nothing is clamped.  Every score [niqe] returns is
    of this kind. *)
Theorem C1_score_is_unclamped_root
  (np_cov : list (list float) -> matrix) (pinv : matrix -> result matrix)
  (mu_pris_param : list float) (cov_pris_param : matrix)
  (distparam : list (list float)) (invcov_param : matrix) :
  pinv (pooled cov_pris_param (np_cov (distparam_no_nan distparam)))
  = Ok invcov_param ->
  let quality :=
    quadratic_form (zip_with sub mu_pris_param (nanmean_axis0 distparam))
                   invcov_param in
  niqe_aggregate np_cov pinv mu_pris_param cov_pris_param distparam
  = Ok (sqrt quality) /\
  (is_nan (sqrt quality) = true \/ leb zero (sqrt quality) = true) /\
  (ltb quality zero = true -> sqrt quality = nan) /\
  (is_nan quality = true -> sqrt quality = nan) /\
  (forall (gamma : float -> float) (convolve : image -> image -> image)
          (imresize : image -> result image) (img : ndarray) (window : image)
          (block_size_h block_size_w : Z) (score : float),
      niqe gamma convolve imresize np_cov pinv img mu_pris_param
           cov_pris_param window block_size_h block_size_w = Ok score ->
      is_nan score = true \/ leb zero score = true).
Proof.
  intros Hinv quality.
  split; [rewrite niqe_aggregate_unfold, Hinv; reflexivity |].
  split; [apply sign_ok_nan_or_nonneg, sqrt_sign_ok |].
  split; [apply sqrt_negative |].
  split; [apply sqrt_nan |].
  intros gamma convolve imresize img window bh bw score. unfold niqe, bind.
  destruct (niqe_distparam _ _ _ _ _ _ _) as [m |]; [| discriminate].
  rewrite niqe_aggregate_unfold.
  destruct (pinv (pooled cov_pris_param (np_cov (distparam_no_nan m))))
    as [inv |]; [| discriminate].
  intros Heq. injection Heq as Hs. rewrite <- Hs.
  apply sign_ok_nan_or_nonneg, sqrt_sign_ok.
Qed.

Lemma C1_score_is_unclamped_root_witness :
  pinv_sample
    (pooled (diag_matrix 36 (of_Z (-2)))
            (np_cov_sample (distparam_no_nan [waves_row; waves_row])))
  = Ok (diag_matrix 36 (of_Z (-1))) /\
  niqe_aggregate np_cov_sample pinv_sample
    (repeat zero 36) (diag_matrix 36 (of_Z (-2))) [waves_row; waves_row]
  = Ok (sqrt (quadratic_form
                (zip_with sub (repeat zero 36)
                   (nanmean_axis0 [waves_row; waves_row]))
                (diag_matrix 36 (of_Z (-1))))).
Proof.
  assert (H : pinv_sample
                (pooled (diag_matrix 36 (of_Z (-2)))
                   (np_cov_sample (distparam_no_nan [waves_row; waves_row])))
              = Ok (diag_matrix 36 (of_Z (-1))))
    by (vm_compute; reflexivity).
  split; [exact H |].
  apply (C1_score_is_unclamped_root np_cov_sample pinv_sample
           (repeat zero 36) (diag_matrix 36 (of_Z (-2)))
           [waves_row; waves_row] (diag_matrix 36 (of_Z (-1))) H).
Defined.

(** ** The empty sample *)


(** ** The entry point *)

(** C9. Whatever keyword arguments [calculate_niqe] is given, block sizes
    included, its result is the one of the call without them: the
    parameters are loaded, the image is converted, cropped and rounded,
    and [niqe] is called with the block size 96 x 96. *)
Theorem C9_kwargs_ignored
  (gamma : float -> float) (convolve : image -> image -> image)
  (imresize : image -> result image) (np_cov : list (list float) -> matrix)
  (pinv : matrix -> result matrix)
  (np_load : string -> result (list float * matrix * image))
  (astype_float32 : ndarray -> ndarray)
  (reorder_image : ndarray -> string -> result ndarray)
  (to_y_channel bgr2gray np_squeeze : ndarray -> ndarray)
  (crop : Z -> ndarray -> result ndarray) (np_round : ndarray -> ndarray)
  (img : ndarray) (crop_border : Z)
  (params_path input_order convert_to : string)
  (kwargs : list (string * pyvalue)) :
  let run := calculate_niqe gamma convolve imresize np_cov pinv np_load
               astype_float32 reorder_image to_y_channel bgr2gray
               np_squeeze crop np_round img crop_border
               params_path input_order convert_to in
  run kwargs = run [] /\
  run [("block_size_h"%string, PyInt 48); ("block_size_w"%string, PyInt 48)]
  = run [] /\
  run kwargs
  = (niqe_pris_params <- np_load params_path ;;
     gray <- to_gray reorder_image to_y_channel bgr2gray np_squeeze
               (astype_float32 img) input_order convert_to ;;
     cropped <- (if negb (crop_border =? 0) then crop crop_border gray
                 else Ok gray) ;;
     niqe gamma convolve imresize np_cov pinv (np_round cropped)
          (fst (fst niqe_pris_params)) (snd (fst niqe_pris_params))
          (snd niqe_pris_params) 96 96).
Proof.
  intros run. split; [reflexivity |]. split; [reflexivity |].
  unfold run, calculate_niqe, bind.
  destruct (np_load params_path) as [[[mu cov] window] | e]; reflexivity.
Qed.

(** ** The video driver *)

Section DriverFacts.

Variables F G : Type.
Variable scissors : F -> Z -> Z -> result G.
Variable score_origin : G -> result float.
Variable score_result : F -> result float.
Variable py_str : float -> string.

Variable crop : F -> G.
Variable s_origin s_result : F -> float.

Local Abbreviation scoring_succeeds :=
  (scoring_succeeds F G scissors score_origin score_result
                    crop s_origin s_result).

Lemma scoring_succeeds_tail (f g : F) (fo fr : list F) :
  scoring_succeeds (f :: fo) (g :: fr) -> scoring_succeeds fo fr.
Proof.
  intros (H1 & H2 & H3). repeat split; intros x Hx;
    [apply H1 | apply H2 | apply H3]; now right.
Qed.

(** When the result video has fewer frames left than the source, the loop
    scores as many pairs as the result has frames and leaves by [break]. *)
Lemma niqe_loop_result_shorter (fr : list F) :
  forall (fo : list F) (a b : float) (i : Z),
    (length fr < length fo)%nat ->
    scoring_succeeds fo fr ->
    niqe_loop F G scissors score_origin score_result fo fr a b i
    = Returned (fold_left add (map s_origin (firstn (length fr) fo)) a,
                fold_left add (map s_result fr) b,
                i + Z.of_nat (length fr)).
Proof.
  induction fr as [| g fr IH]; intros fo a b i Hlen Hok.
  - destruct fo as [| f fo]; [simpl in Hlen; lia |].
    destruct Hok as (H1 & _ & _). simpl.
    rewrite (H1 f (or_introl eq_refl)). now rewrite Z.add_0_r.
  - destruct fo as [| f fo]; [simpl in Hlen; lia |].
    pose proof Hok as (H1 & H2 & H3). simpl niqe_loop.
    rewrite (H1 f (or_introl eq_refl)), (H2 f (or_introl eq_refl)),
            (H3 g (or_introl eq_refl)).
    rewrite IH by (simpl in Hlen; try lia; eapply scoring_succeeds_tail;
                   exact Hok).
    simpl length. simpl firstn. simpl map. simpl fold_left.
    do 2 f_equal. lia.
Qed.

(** When the source has no more frames left than the result, the loop
    reads past its end and crops [None]. *)
Lemma niqe_loop_source_runs_out (fo : list F) :
  forall (fr : list F) (a b : float) (i : Z),
    (length fo <= length fr)%nat ->
    scoring_succeeds fo fr ->
    niqe_loop F G scissors score_origin score_result fo fr a b i
    = Raised AttributeError.
Proof.
  induction fo as [| f fo IH]; intros fr a b i Hlen Hok; [reflexivity |].
  destruct fr as [| g fr]; [simpl in Hlen; lia |].
  pose proof Hok as (H1 & H2 & H3). simpl niqe_loop.
  rewrite (H1 f (or_introl eq_refl)), (H2 f (or_introl eq_refl)),
          (H3 g (or_introl eq_refl)).
  apply IH; [simpl in Hlen; lia |].
  eapply scoring_succeeds_tail; exact Hok.
Qed.

Local Abbreviation averages :=
  (niqe_averages F G scissors score_origin score_result).

Local Abbreviation driver :=
  (NIQE F G scissors score_origin score_result py_str).

(** X1. When both videos are opened, the result video has at least two
    frames and fewer frames than the source, and every cropping and
    scoring succeeds, [NIQE] returns the averages over the frames 1 to
    [m - 1] of each video, [m] being the frame count of the result: frame
    0 of either video is read and never scored. *)
Theorem NIQE_averages_when_result_shorter
  (video_origin video_result : capture F)
  (f0 g0 : F) (fo fr : list F) :
  opened video_origin = true -> opened video_result = true ->
  frames video_origin = f0 :: fo -> frames video_result = g0 :: fr ->
  fr <> [] -> (length fr < length fo)%nat ->
  scoring_succeeds fo fr ->
  let m := Z.of_nat (length fr) in
  let avg_origin :=
    div (Np.sum (map s_origin (firstn (length fr) fo))) (of_Z m) in
  let avg_result := div (Np.sum (map s_result fr)) (of_Z m) in
  averages video_origin video_result
  = Returned (avg_origin, avg_result) /\
  driver video_origin video_result
  = Returned ("The source video NIQE: " ++ py_str avg_origin
              ++ String (Ascii.ascii_of_nat 10)
                   ("The hallo genarated video NIQE: "
                    ++ py_str avg_result))%string.
Proof.
  intros Ho Hr Hfo Hfr Hne Hlen Hok m avg_origin avg_result.
  assert (Havg : averages video_origin video_result
                 = Returned (avg_origin, avg_result)).
  { unfold niqe_averages, niqe_sums.
    rewrite Ho, Hr, Hfo, Hfr. simpl andb. cbv iota.
    rewrite (niqe_loop_result_shorter fr fo zero zero 0 Hlen Hok).
    destruct (Z.eqb_spec (0 + Z.of_nat (length fr)) 0) as [H0 | _].
    - destruct fr; [congruence | simpl in H0; lia].
    - reflexivity. }
  split; [exact Havg |].
  unfold NIQE. now rewrite Havg.
Qed.

(** X2. When both videos are opened and not empty, the source has no more
    frames than the result (equal lengths included), and every cropping
    and scoring succeeds, [NIQE] returns nothing: the loop reads past the
    last frame of the source and [img_scissors] is called on [None]. *)
Theorem NIQE_attribute_error_when_source_not_longer
  (video_origin video_result : capture F)
  (f0 g0 : F) (fo fr : list F) :
  opened video_origin = true -> opened video_result = true ->
  frames video_origin = f0 :: fo -> frames video_result = g0 :: fr ->
  (length fo <= length fr)%nat ->
  scoring_succeeds fo fr ->
  driver video_origin video_result = Raised AttributeError.
Proof.
  intros Ho Hr Hfo Hfr Hlen Hok.
  unfold NIQE, niqe_averages, niqe_sums.
  rewrite Ho, Hr, Hfo, Hfr. simpl andb. cbv iota.
  now rewrite (niqe_loop_source_runs_out fo fr zero zero 0 Hlen Hok).
Qed.

(** X3. [NIQE] ends in [ZeroDivisionError] whenever no pair of frames is
    scored: a video that is not opened or has no frame, and a result
    video of a single frame under a longer source. *)
Theorem NIQE_zero_division_when_nothing_scored
  (video_origin video_result : capture F) :
  opened video_origin && opened video_result = false \/
  frames video_origin = [] \/ frames video_result = [] \/
  (exists (f0 f1 g0 : F) (fo : list F) (img : G),
      frames video_origin = f0 :: f1 :: fo /\
      frames video_result = [g0] /\
      scissors f1 720 512 = Ok img) ->
  driver video_origin video_result = Raised (Exn ZeroDivisionError).
Proof.
  intros H.
  assert (Hs : niqe_sums F G scissors score_origin score_result
                 video_origin video_result = Returned (zero, zero, 0)).
  { unfold niqe_sums.
    destruct (opened video_origin && opened video_result); [| reflexivity].
    destruct H as [H | [H | [H | (f0 & f1 & g0 & fo & img & Ho & Hr & Hc)]]].
    - discriminate.
    - now rewrite H.
    - rewrite H. now destruct (frames video_origin).
    - rewrite Ho, Hr. simpl. now rewrite Hc. }
  unfold NIQE, niqe_averages. now rewrite Hs.
Qed.

End DriverFacts.

Lemma NIQE_averages_when_result_shorter_witness :
  (length [2%nat] < length [3%nat; 4%nat])%nat /\
  niqe_averages nat nat (fun f _ _ => Ok f)
    (fun g => Ok (of_Z (Z.of_nat g))) (fun f => Ok (of_Z (Z.of_nat f)))
    {| opened := true; frames := [0%nat; 3%nat; 4%nat] |}
    {| opened := true; frames := [1%nat; 2%nat] |}
  = Returned (of_Z 3, of_Z 2).
Proof.
  assert (Hlen : (length [2%nat] < length [3%nat; 4%nat])%nat)
    by (simpl; lia).
  split; [exact Hlen |].
  pose proof (NIQE_averages_when_result_shorter nat nat
                (fun f _ _ => Ok f) (fun g => Ok (of_Z (Z.of_nat g)))
                (fun f => Ok (of_Z (Z.of_nat f))) (fun _ => EmptyString)
                (fun f => f) (fun f => of_Z (Z.of_nat f))
                (fun f => of_Z (Z.of_nat f))
                {| opened := true; frames := [0%nat; 3%nat; 4%nat] |}
                {| opened := true; frames := [1%nat; 2%nat] |}
                0%nat 1%nat [3%nat; 4%nat] [2%nat]
                eq_refl eq_refl eq_refl eq_refl
                ltac:(discriminate) Hlen
                ltac:(repeat split; reflexivity)) as H.
  cbv zeta in H. destruct H as [H _]. exact H.
Defined.

Lemma NIQE_attribute_error_when_source_not_longer_witness :
  (length [3%nat] <= length [2%nat])%nat /\
  NIQE nat nat (fun f _ _ => Ok f)
    (fun g => Ok (of_Z (Z.of_nat g))) (fun f => Ok (of_Z (Z.of_nat f)))
    (fun _ => EmptyString)
    {| opened := true; frames := [0%nat; 3%nat] |}
    {| opened := true; frames := [1%nat; 2%nat] |}
  = Raised AttributeError.
Proof.
  assert (Hlen : (length [3%nat] <= length [2%nat])%nat) by (simpl; lia).
  split; [exact Hlen |].
  apply (NIQE_attribute_error_when_source_not_longer nat nat
           (fun f _ _ => Ok f) (fun g => Ok (of_Z (Z.of_nat g)))
           (fun f => Ok (of_Z (Z.of_nat f))) (fun _ => EmptyString)
           (fun f => f) (fun f => of_Z (Z.of_nat f))
           (fun f => of_Z (Z.of_nat f))
           {| opened := true; frames := [0%nat; 3%nat] |}
           {| opened := true; frames := [1%nat; 2%nat] |}
           0%nat 1%nat [3%nat] [2%nat]
           eq_refl eq_refl eq_refl eq_refl Hlen).
  repeat split; reflexivity.
Defined.

Lemma NIQE_zero_division_when_nothing_scored_witness :
  (true && false = false) /\
  NIQE nat nat (fun f _ _ => Ok f)
    (fun g => Ok (of_Z (Z.of_nat g))) (fun f => Ok (of_Z (Z.of_nat f)))
    (fun _ => EmptyString)
    {| opened := true; frames := [0%nat; 3%nat] |}
    {| opened := false; frames := [1%nat; 2%nat] |}
  = Raised (Exn ZeroDivisionError).
Proof.
  split; [reflexivity |].
  apply (NIQE_zero_division_when_nothing_scored nat nat
           (fun f _ _ => Ok f) (fun g => Ok (of_Z (Z.of_nat g)))
           (fun f => Ok (of_Z (Z.of_nat f))) (fun _ => EmptyString)
           {| opened := true; frames := [0%nat; 3%nat] |}
           {| opened := false; frames := [1%nat; 2%nat] |}).
  left. reflexivity.
Defined.

(** ** The centred crop of [img_scissors] *)

Lemma py_slice_any_in_range {A : Type} (a b : Z) (l : list A) :
  0 <= a <= b -> b <= Z.of_nat (length l) ->
  py_slice_any a b l = py_slice a b l.
Proof.
  intros Hab Hb. unfold py_slice_any, py_slice, py_bound.
  destruct (Z.ltb_spec a 0); [lia |].
  destruct (Z.ltb_spec b 0); [lia |].
  now rewrite !Z.min_l by lia.
Qed.

Lemma py_slice_length {A : Type} (a b : Z) (l : list A) :
  0 <= a <= b -> b <= Z.of_nat (length l) ->
  length (py_slice a b l) = Z.to_nat (b - a).
Proof.
  intros Hab Hb. unfold py_slice.
  rewrite length_firstn, length_skipn. lia.
Qed.

Lemma In_firstn_list {A : Type} (n : nat) (l : list A) (x : A) :
  In x (firstn n l) -> In x l.
Proof.
  intros H. rewrite <- (firstn_skipn n l). apply in_or_app. now left.
Qed.

Lemma In_skipn_list {A : Type} (n : nat) (l : list A) (x : A) :
  In x (skipn n l) -> In x l.
Proof.
  intros H. rewrite <- (firstn_skipn n l). apply in_or_app. now right.
Qed.

Lemma slice_rows_nth {A : Type} (r0 r1 c0 c1 : Z) (img : list (list A))
  (d : A) (i j : nat) :
  0 <= r0 -> 0 <= c0 ->
  Z.of_nat i < r1 - r0 -> Z.of_nat j < c1 - c0 ->
  nth j (nth i (map (py_slice c0 c1) (py_slice r0 r1 img)) []) d
  = nth (Z.to_nat c0 + j) (nth (Z.to_nat r0 + i) img []) d.
Proof.
  intros Hr Hc Hi Hj.
  transitivity
    (nth j (nth i (map (py_slice c0 c1) (py_slice r0 r1 img))
                  (py_slice c0 c1 [])) d);
    [now rewrite py_slice_nil |].
  rewrite (map_nth (py_slice c0 c1)).
  rewrite (py_slice_nth r0 r1 img [] i Hr Hi).
  now apply py_slice_nth.
Qed.

(** The window of [crop_bounds] lies in the axis; it has
    [2 * (origin_size // 2)] entries when that fits around the centre
    [size // 2], and is the whole axis otherwise. *)
Lemma crop_bounds_spec (size origin_size : Z) :
  0 <= size -> 0 <= origin_size ->
  let '(start, stop) := crop_bounds size origin_size in
  0 <= start <= stop /\ stop <= size /\
  (origin_size / 2 <= size / 2 ->
   start = size / 2 - origin_size / 2 /\ stop - start = 2 * (origin_size / 2)) /\
  (size / 2 < origin_size / 2 -> start = 0 /\ stop = size).
Proof.
  intros Hs Ho. unfold crop_bounds.
  pose proof (Z.div_pos size 2 Hs ltac:(lia)) as Hc.
  pose proof (Z.div_pos origin_size 2 Ho ltac:(lia)) as Hh.
  pose proof (Z_div_mod_eq_full size 2) as Hsz.
  pose proof (Z.mod_pos_bound size 2 ltac:(lia)) as Hm.
  repeat split; try lia.
Qed.

(** X4. For a frame of [h] rows and [w] columns and a size
    [origin_size >= 0], the crop of [img_scissors] is the centred window
    of the frame: along each axis it starts at
    [max(size // 2 - origin_size // 2, 0)], it has
    [2 * (origin_size // 2)] entries when that fits around the centre
    (one less than an odd [origin_size]) and the whole axis otherwise, and
    its pixel [(i, j)] is the frame's pixel [(start_y + i, start_x + j)]. *)
Theorem center_crop_window {P : Type}
  (img : list (list P)) (w : nat) (origin_size : Z) (d : P) :
  img <> [] -> Forall (fun row => length row = w) img ->
  0 <= origin_size ->
  let h := Z.of_nat (length img) in
  let start_y := Z.max (h / 2 - origin_size / 2) 0 in
  let start_x := Z.max (Z.of_nat w / 2 - origin_size / 2) 0 in
  let rows := if origin_size / 2 <=? h / 2
              then 2 * (origin_size / 2) else h in
  let cols := if origin_size / 2 <=? Z.of_nat w / 2
              then 2 * (origin_size / 2) else Z.of_nat w in
  Z.of_nat (length (center_crop img origin_size)) = rows /\
  Forall (fun row => Z.of_nat (length row) = cols)
         (center_crop img origin_size) /\
  start_y + rows <= h /\ start_x + cols <= Z.of_nat w /\
  forall i j : nat,
    Z.of_nat i < rows -> Z.of_nat j < cols ->
    nth j (nth i (center_crop img origin_size) []) d
    = nth (Z.to_nat start_x + j) (nth (Z.to_nat start_y + i) img []) d.
Proof.
  intros Hne Hrect Hos h start_y start_x rows cols.
  assert (Hw : frame_width img = Z.of_nat w).
  { destruct img as [| r img]; [congruence |].
    inversion Hrect; subst. reflexivity. }
  unfold center_crop. rewrite Hw. unfold frame_height. fold h.
  pose proof (crop_bounds_spec h origin_size ltac:(lia) Hos) as Hy.
  pose proof (crop_bounds_spec (Z.of_nat w) origin_size ltac:(lia) Hos) as Hx.
  unfold crop_bounds in *. fold start_y start_x in Hy, Hx |- *.
  set (end_y := Z.min (h / 2 + origin_size / 2) h) in *.
  set (end_x := Z.min (Z.of_nat w / 2 + origin_size / 2) (Z.of_nat w)) in *.
  destruct Hy as (Hy1 & Hy2 & Hy3 & Hy4).
  destruct Hx as (Hx1 & Hx2 & Hx3 & Hx4).
  assert (Hrows : end_y - start_y = rows).
  { unfold rows. destruct (Z.leb_spec (origin_size / 2) (h / 2)); lia. }
  assert (Hcols : end_x - start_x = cols).
  { unfold cols. destruct (Z.leb_spec (origin_size / 2) (Z.of_nat w / 2)); lia. }
  rewrite (py_slice_any_in_range start_y end_y img) by (unfold h in *; lia).
  assert (Hin : forall row, In row (py_slice start_y end_y img) ->
                            length row = w).
  { intros row Hrow. rewrite Forall_forall in Hrect. apply Hrect.
    unfold py_slice in Hrow.
    apply (In_skipn_list (Z.to_nat start_y)).
    now apply (In_firstn_list (Z.to_nat (end_y - start_y))). }
  assert (Hmap : map (py_slice_any start_x end_x) (py_slice start_y end_y img)
                 = map (py_slice start_x end_x) (py_slice start_y end_y img)).
  { apply map_ext_in. intros row Hrow.
    apply py_slice_any_in_range; [lia |]. rewrite (Hin row Hrow). lia. }
  rewrite Hmap.
  split.
  { rewrite length_map, py_slice_length by (unfold h in *; lia). lia. }
  split.
  { rewrite Forall_map, Forall_forall. intros row Hrow.
    rewrite py_slice_length by (try rewrite (Hin row Hrow); lia). lia. }
  split; [lia |]. split; [lia |].
  intros i j Hi Hj. apply slice_rows_nth; lia.
Qed.

Lemma center_crop_window_witness :
  ([[1; 2; 3]; [4; 5; 6]; [7; 8; 9]] <> [] /\
   Forall (fun row => length row = 3%nat) [[1; 2; 3]; [4; 5; 6]; [7; 8; 9]] /\
   0 <= 3) /\
  Z.of_nat (length (center_crop [[1; 2; 3]; [4; 5; 6]; [7; 8; 9]] 3)) = 2.
Proof.
  assert (H1 : [[1; 2; 3]; [4; 5; 6]; [7; 8; 9]] <> []) by discriminate.
  assert (H2 : Forall (fun row => length row = 3%nat)
                      [[1; 2; 3]; [4; 5; 6]; [7; 8; 9]])
    by (repeat constructor).
  assert (H3 : 0 <= 3) by lia.
  split; [repeat split; assumption |].
  pose proof (center_crop_window [[1; 2; 3]; [4; 5; 6]; [7; 8; 9]]
                3%nat 3 0 H1 H2 H3) as H.
  cbv zeta in H. destruct H as [H _]. exact H.
Defined.

(** A 3 x 3 frame cropped to the size 3 keeps its first two rows and
    columns: the window has [2 * (3 // 2) = 2] entries each way. *)
Example center_crop_odd_size :
  center_crop [[1; 2; 3]; [4; 5; 6]; [7; 8; 9]] 3 = [[1; 2]; [4; 5]].
Proof. reflexivity. Qed.

(** ** The order of the floats and [np.argmin] *)

Lemma leb_rank (x y : float) :
  is_nan x = false -> is_nan y = false ->
  (leb x y = true <-> lex_le (rank x) (rank y)).
Proof.
  destruct x as [sx | [|] | | [|] mx ex], y as [sy | [|] | | [|] my ey];
    simpl; intros Hx Hy; try discriminate;
    unfold leb, SFleb, SFcompare, lex_le; simpl;
    try (split; [intros _; lia | reflexivity]);
    try (split; [discriminate | lia]);
    change (Pos.compare_cont Eq mx my) with (Pos.compare mx my);
    destruct (Z.compare_spec ex ey); destruct (Pos.compare_spec mx my);
    simpl; split; intros ?; try lia; try discriminate; try reflexivity.
Qed.

Lemma ltb_rank (x y : float) :
  is_nan x = false -> is_nan y = false ->
  (ltb x y = true <-> lex_lt (rank x) (rank y)).
Proof.
  destruct x as [sx | [|] | | [|] mx ex], y as [sy | [|] | | [|] my ey];
    simpl; intros Hx Hy; try discriminate;
    unfold ltb, SFltb, SFcompare, lex_lt; simpl;
    try (split; [intros _; lia | reflexivity]);
    try (split; [discriminate | lia]);
    change (Pos.compare_cont Eq mx my) with (Pos.compare mx my);
    destruct (Z.compare_spec ex ey); destruct (Pos.compare_spec mx my);
    simpl; split; intros ?; try lia; try discriminate; try reflexivity.
Qed.

Lemma not_leb_ltb (x y : float) :
  is_nan x = false -> is_nan y = false ->
  leb x y = false -> ltb y x = true.
Proof.
  intros Hx Hy H. apply (ltb_rank y x Hy Hx).
  assert (Hn : ~ lex_le (rank x) (rank y))
    by (intros Hle; apply (leb_rank x y Hx Hy) in Hle; congruence).
  unfold lex_le, lex_lt in *.
  destruct (rank x) as [[a1 a2] a3], (rank y) as [[b1 b2] b3]. lia.
Qed.

Lemma ltb_leb_trans (x y z : float) :
  is_nan x = false -> is_nan y = false -> is_nan z = false ->
  ltb x y = true -> leb y z = true -> ltb x z = true.
Proof.
  intros Hx Hy Hz H1 H2.
  apply (ltb_rank x y Hx Hy) in H1. apply (leb_rank y z Hy Hz) in H2.
  apply (ltb_rank x z Hx Hz).
  unfold lex_le, lex_lt in *.
  destruct (rank x) as [[a1 a2] a3], (rank y) as [[b1 b2] b3],
           (rank z) as [[c1 c2] c3]. lia.
Qed.

Lemma ltb_leb (x y : float) :
  is_nan x = false -> is_nan y = false -> ltb x y = true -> leb x y = true.
Proof.
  intros Hx Hy H. apply (ltb_rank x y Hx Hy) in H.
  apply (leb_rank x y Hx Hy).
  unfold lex_le, lex_lt in *.
  destruct (rank x) as [[a1 a2] a3], (rank y) as [[b1 b2] b3]. lia.
Qed.

Lemma leb_refl (x : float) : is_nan x = false -> leb x x = true.
Proof.
  intros Hx. apply (leb_rank x x Hx Hx). unfold lex_le.
  destruct (rank x) as [[a1 a2] a3]. lia.
Qed.

(** The scan of [np.argmin] over entries that are not NaN keeps the first
    least entry.  [seen] are the entries already read, [mp] the least of
    them and [min_ind] its first position. *)
Lemma argmin_scan_spec (rest : list float) :
  forall (seen : list float) (mp : float) (min_ind : nat),
    Forall (fun x => is_nan x = false) (seen ++ rest) ->
    (min_ind < length seen)%nat ->
    nth min_ind seen nan = mp ->
    (forall j, (j < length seen)%nat -> leb mp (nth j seen nan) = true) ->
    (forall j, (j < min_ind)%nat -> ltb mp (nth j seen nan) = true) ->
    let l := seen ++ rest in
    let i := Np.argmin_scan mp min_ind (length seen) rest in
    (i < length l)%nat /\
    (forall j, (j < length l)%nat -> leb (nth i l nan) (nth j l nan) = true) /\
    (forall j, (j < i)%nat -> ltb (nth i l nan) (nth j l nan) = true).
Proof.
  induction rest as [| x rest IH]; intros seen mp min_ind Hnan Hlt Hmp Hle Hfirst.
  - simpl. rewrite app_nil_r in *. rewrite Hmp. auto.
  - assert (Hx : is_nan x = false).
    { rewrite Forall_forall in Hnan. apply Hnan, in_or_app. right. now left. }
    assert (Hmpn : is_nan mp = false).
    { rewrite Forall_forall in Hnan. rewrite <- Hmp.
      apply Hnan, in_or_app. left. now apply nth_In. }
    assert (Hseen : forall j, (j < length seen)%nat ->
                              is_nan (nth j seen nan) = false).
    { intros j Hj. rewrite Forall_forall in Hnan.
      apply Hnan, in_or_app. left. now apply nth_In. }
    assert (Happ : seen ++ x :: rest = (seen ++ [x]) ++ rest)
      by (now rewrite <- app_assoc).
    assert (Hlen : length (seen ++ [x]) = S (length seen))
      by (rewrite length_app; simpl; lia).
    cbv zeta. simpl Np.argmin_scan. rewrite Hx.
    destruct (leb mp x) eqn:Hcmp; simpl negb; cbv iota.
    + rewrite Happ, <- Hlen.
      apply IH.
      * now rewrite <- Happ.
      * rewrite Hlen. lia.
      * rewrite app_nth1 by exact Hlt. exact Hmp.
      * intros j Hj. rewrite Hlen in Hj.
        destruct (Nat.eq_dec j (length seen)) as [-> | Hne].
        -- rewrite app_nth2, Nat.sub_diag by lia. exact Hcmp.
        -- rewrite app_nth1 by lia. apply Hle. lia.
      * intros j Hj. rewrite app_nth1 by lia. now apply Hfirst.
    + pose proof (not_leb_ltb mp x Hmpn Hx Hcmp) as Hxlt.
      rewrite Happ, <- Hlen.
      apply IH.
      * now rewrite <- Happ.
      * rewrite Hlen. lia.
      * rewrite app_nth2, Nat.sub_diag by lia. reflexivity.
      * intros j Hj. rewrite Hlen in Hj.
        destruct (Nat.eq_dec j (length seen)) as [-> | Hne].
        -- rewrite app_nth2, Nat.sub_diag by lia. simpl. now apply leb_refl.
        -- rewrite app_nth1 by lia.
           assert (Hjs : (j < length seen)%nat) by lia.
           apply ltb_leb; [exact Hx | now apply Hseen |].
           exact (ltb_leb_trans x mp (nth j seen nan) Hx Hmpn
                    (Hseen j Hjs) Hxlt (Hle j Hjs)).
      * intros j Hj. rewrite app_nth1 by lia.
        exact (ltb_leb_trans x mp (nth j seen nan) Hx Hmpn
                 (Hseen j Hj) Hxlt (Hle j Hj)).
Qed.

Lemma argmin_spec (l : list float) :
  l <> [] -> Forall (fun x => is_nan x = false) l ->
  (Np.argmin l < length l)%nat /\
  (forall j, (j < length l)%nat ->
             leb (nth (Np.argmin l) l nan) (nth j l nan) = true) /\
  (forall j, (j < Np.argmin l)%nat ->
             ltb (nth (Np.argmin l) l nan) (nth j l nan) = true).
Proof.
  destruct l as [| x rest]; [congruence |]. intros _ Hnan.
  assert (Hx : is_nan x = false) by (now inversion Hnan).
  unfold Np.argmin. rewrite Hx.
  apply (argmin_scan_spec rest [x] x O).
  - exact Hnan.
  - simpl. lia.
  - reflexivity.
  - intros [| j] Hj; simpl in *; [now apply leb_refl | lia].
  - intros j Hj. lia.
Qed.

(** ** More on [estimate_aggd_param] *)

(** X5. When none of the 9801 squared errors
    [(r_gam[j] - rhatnorm) ** 2] is NaN, the [alpha] of
    [estimate_aggd_param] is the candidate of least squared error, and
    the first such candidate when several tie. *)
Theorem alpha_minimises_squared_error
  (gamma : float -> float) (block : list (list float)) :
  let errs := map (fun r => square (sub r (rhatnorm_of (concat block))))
                  (r_gam gamma) in
  Forall (fun e => is_nan e = false) errs ->
  exists i : nat,
    (i < Z.to_nat 9801)%nat /\
    fst (fst (estimate_aggd_param gamma block)) = nth i gam nan /\
    (forall j, (j < Z.to_nat 9801)%nat ->
               leb (nth i errs nan) (nth j errs nan) = true) /\
    (forall j, (j < i)%nat -> ltb (nth i errs nan) (nth j errs nan) = true).
Proof.
  intros errs Hnan.
  assert (Hlen : length errs = Z.to_nat 9801)
    by (unfold errs; now rewrite length_map, r_gam_length, gam_length).
  assert (Halpha : fst (fst (estimate_aggd_param gamma block))
                   = nth (Np.argmin errs) gam nan)
    by (unfold estimate_aggd_param, array_position; reflexivity).
  clearbody errs.
  assert (Hne : errs <> []).
  { intros H. apply (f_equal (@length float)) in H.
    rewrite Hlen in H. simpl in H. lia. }
  destruct (argmin_spec errs Hne Hnan) as (Hi & Hmin & Hfirst).
  rewrite Hlen in Hi, Hmin.
  exact (ex_intro _ (Np.argmin errs)
           (conj Hi (conj Halpha (conj Hmin Hfirst)))).
Qed.

Lemma alpha_minimises_squared_error_witness :
  Forall (fun e => is_nan e = false)
    (map (fun r => square (sub r (rhatnorm_of (concat [[one; of_Z (-1)]]))))
         (r_gam (fun _ => one))) /\
  exists i : nat,
    (i < Z.to_nat 9801)%nat /\
    fst (fst (estimate_aggd_param (fun _ => one) [[one; of_Z (-1)]]))
    = nth i gam nan.
Proof.
  assert (H : Forall (fun e => is_nan e = false)
                (map (fun r => square
                                 (sub r (rhatnorm_of
                                           (concat [[one; of_Z (-1)]]))))
                     (r_gam (fun _ => one)))).
  { unfold r_gam. rewrite !Forall_map, Forall_forall. intros g _.
    vm_compute. reflexivity. }
  split; [exact H |].
  destruct (alpha_minimises_squared_error (fun _ => one)
              [[one; of_Z (-1)]] H) as (i & Hi & Halpha & _).
  exists i. split; [exact Hi | exact Halpha].
Defined.

Lemma add_nan_r (x : float) : add x nan = nan.
Proof. destruct x as [s | s | | s m e]; reflexivity. Qed.

Lemma fold_add_nan (l : list float) : fold_left add l nan = nan.
Proof. induction l as [| x l IH]; [reflexivity | exact IH]. Qed.

(** A NaN among the summands makes the sum NaN. *)
Lemma sum_with_nan (l : list float) :
  existsb is_nan l = true -> Np.sum l = nan.
Proof.
  unfold Np.sum. generalize zero.
  induction l as [| x l IH]; intros acc H; [discriminate |].
  simpl in *. destruct (is_nan x) eqn:Hx.
  - destruct x; try discriminate. rewrite add_nan_r. apply fold_add_nan.
  - now apply IH.
Qed.

Lemma existsb_map_square (l : list float) :
  existsb is_nan l = true -> existsb is_nan (map square l) = true.
Proof.
  induction l as [| x l IH]; [discriminate |]. simpl.
  destruct (is_nan x) eqn:Hx.
  - destruct x; try discriminate. reflexivity.
  - simpl. intros H. rewrite (IH H). apply orb_true_r.
Qed.

Lemma filter_skips_nan (p : float -> bool) (l : list float) :
  (forall x, is_nan x = true -> p x = false) ->
  filter p l = filter p (filter (fun x => negb (is_nan x)) l).
Proof.
  intros Hp. induction l as [| x l IH]; [reflexivity |]. simpl.
  destruct (is_nan x) eqn:Hx; simpl.
  - now rewrite (Hp x Hx).
  - destruct (p x); now rewrite IH.
Qed.

(** X6. A NaN pixel anywhere in the block makes [alpha] the first
    candidate 0.2, whatever the other pixels are, while [beta_l] and
    [beta_r] are computed from the pixels that are not NaN alone. *)
Theorem nan_pixel_collapses_alpha
  (gamma : float -> float) (block : list (list float)) :
  existsb is_nan (concat block) = true ->
  let clean := filter (fun x => negb (is_nan x)) (concat block) in
  estimate_aggd_param gamma block
  = (dec 2 10,
     mul (left_std clean) (beta_factor gamma (dec 2 10)),
     mul (right_std clean) (beta_factor gamma (dec 2 10))).
Proof.
  intros H clean.
  assert (Hr : rhatnorm_of (concat block) = nan).
  { unfold rhatnorm_of, Np.mean.
    rewrite (sum_with_nan (map square (concat block)))
      by now apply existsb_map_square.
    change (div nan (of_Z (Z.of_nat (length (map square (concat block))))))
      with nan.
    now rewrite div_nan_r. }
  unfold estimate_aggd_param.
  rewrite (array_position_nan gamma _ Hr), gam_first.
  unfold left_std, right_std, clean.
  rewrite <- (filter_skips_nan (fun x => ltb x zero))
    by (intros x Hx; destruct x; try discriminate; reflexivity).
  rewrite <- (filter_skips_nan (fun x => ltb zero x))
    by (intros x Hx; destruct x; try discriminate; reflexivity).
  reflexivity.
Qed.

Lemma nan_pixel_collapses_alpha_witness :
  existsb is_nan (concat [[one; nan]; [of_Z (-1); one]]) = true /\
  estimate_aggd_param gamma_sample [[one; nan]; [of_Z (-1); one]]
  = (dec 2 10,
     mul (left_std [one; of_Z (-1); one])
         (beta_factor gamma_sample (dec 2 10)),
     mul (right_std [one; of_Z (-1); one])
         (beta_factor gamma_sample (dec 2 10))).
Proof.
  split; [reflexivity |].
  apply (nan_pixel_collapses_alpha gamma_sample
           [[one; nan]; [of_Z (-1); one]]).
  reflexivity.
Defined.

(** ** Blocks with entries of one sign *)

Lemma mul_not_negative (x y : float) :
  (ltb x zero = false /\ ltb y zero = false) \/
  (ltb zero x = false /\ ltb zero y = false) ->
  ltb (mul x y) zero = false.
Proof.
  destruct x as [sx | [|] | | [|] mx ex], y as [sy | [|] | | [|] my ey];
    simpl; intros [[Hx Hy] | [Hx Hy]]; try discriminate; try reflexivity;
    try (destruct sx; reflexivity); try (destruct sy; reflexivity);
    try (destruct sx, sy; reflexivity);
    unfold mul, SFmul;
    match goal with
    | |- ltb (binary_round_aux _ _ ?s ?m ?e ?l) _ = _ =>
        pose proof (binary_round_aux_sign s m e l) as Hs;
        destruct (binary_round_aux prec emax s m e l) as [s' | s' | | s' m' e'];
        simpl in Hs; subst; reflexivity
    end.
Qed.

Lemma mul1_In (a b : list float) (z : float) :
  In z (Np.mul1 a b) ->
  exists x y, In x a /\ In y b /\ z = mul x y.
Proof.
  revert b. induction a as [| x a IH]; intros [| y b]; simpl;
    try contradiction.
  intros [<- | H].
  - exists x, y. auto.
  - destruct (IH b H) as (x' & y' & Hx & Hy & Hz).
    exists x', y'. auto.
Qed.

Lemma mul2_concat_In (a b : list (list float)) (z : float) :
  In z (concat (Np.mul2 a b)) ->
  exists x y, In x (concat a) /\ In y (concat b) /\ z = mul x y.
Proof.
  revert b. induction a as [| r a IH]; intros [| r' b]; simpl;
    try contradiction.
  intros H. apply in_app_or in H. destruct H as [H | H].
  - destruct (mul1_In r r' z H) as (x & y & Hx & Hy & Hz).
    exists x, y. repeat split; auto; apply in_or_app; now left.
  - destruct (IH b H) as (x & y & Hx & Hy & Hz).
    exists x, y. repeat split; auto; apply in_or_app; now right.
Qed.

Lemma roll1_In {A : Type} (s : Z) (l : list A) (x : A) :
  In x (Np.roll1 s l) -> In x l.
Proof.
  unfold Np.roll1. intros H. apply in_app_or in H.
  destruct H as [H | H];
    [eapply In_skipn_list | eapply In_firstn_list]; exact H.
Qed.

Lemma roll_concat_In (s0 s1 : Z) (block : list (list float)) (x : float) :
  In x (concat (Np.roll s0 s1 block)) -> In x (concat block).
Proof.
  unfold Np.roll. rewrite !in_concat.
  intros (row & Hrow & Hx). apply in_map_iff in Hrow.
  destruct Hrow as (r & <- & Hr).
  exists r. split; [eapply roll1_In; exact Hr | eapply roll1_In; exact Hx].
Qed.

(** The product of a one-sided block with a shifted copy of itself has
    no strictly negative entry. *)
Lemma shifted_product_no_negative (s0 s1 : Z) (block : list (list float)) :
  no_negative (concat block) \/ no_positive (concat block) ->
  no_negative (concat (Np.mul2 block (Np.roll s0 s1 block))).
Proof.
  intros H. unfold no_negative, no_positive in *.
  apply Forall_forall. intros z Hz.
  destruct (mul2_concat_In _ _ z Hz) as (x & y & Hx & Hy & ->).
  apply roll_concat_In in Hy.
  apply mul_not_negative.
  destruct H as [H | H]; [left | right];
    rewrite Forall_forall in H; split; now apply H.
Qed.

Lemma shift_features_one_sided
  (gamma : float -> float) (block : list (list float)) (s : Z * Z) :
  no_negative (concat block) \/ no_positive (concat block) ->
  shift_features gamma block s
  = [dec 2 10; nan; nan;
     mul (right_std (concat (Np.mul2 block (Np.roll (fst s) (snd s) block))))
         (beta_factor gamma (dec 2 10))].
Proof.
  intros H. rewrite shift_features_eq.
  pose proof (shifted_product_no_negative (fst s) (snd s) block H) as Hp.
  rewrite (estimate_aggd_param_one_sided gamma _ (or_introl Hp)).
  rewrite (left_std_no_negative _ Hp).
  change (mul nan (beta_factor gamma (dec 2 10))) with nan.
  now rewrite sub_nan_r.
Qed.

Lemma compute_feature_one_sided
  (gamma : float -> float) (block : list (list float)) :
  no_negative (concat block) \/ no_positive (concat block) ->
  let beta_r := fun s0 s1 : Z =>
    mul (right_std (concat (Np.mul2 block (Np.roll s0 s1 block))))
        (beta_factor gamma (dec 2 10)) in
  compute_feature gamma block
  = [dec 2 10; nan;
     dec 2 10; nan; nan; beta_r 0 1;
     dec 2 10; nan; nan; beta_r 1 0;
     dec 2 10; nan; nan; beta_r 1 1;
     dec 2 10; nan; nan; beta_r 1 (-1)] /\
  row_has_nan (compute_feature gamma block) = true /\
  forall distparam : list (list float),
    ~ In (compute_feature gamma block) (distparam_no_nan distparam).
Proof.
  intros H beta_r.
  assert (Heq : compute_feature gamma block
                = [dec 2 10; nan;
                   dec 2 10; nan; nan; beta_r 0 1;
                   dec 2 10; nan; nan; beta_r 1 0;
                   dec 2 10; nan; nan; beta_r 1 1;
                   dec 2 10; nan; nan; beta_r 1 (-1)]).
  { rewrite compute_feature_unfold.
    rewrite !(shift_features_one_sided gamma block _ H).
    rewrite (estimate_aggd_param_one_sided gamma block H).
    cbn [fst snd app]. do 2 f_equal.
    destruct H as [H | H].
    - now rewrite (left_std_no_negative _ H).
    - rewrite (right_std_no_positive _ H).
      change (mul nan (beta_factor gamma (dec 2 10))) with nan.
      now rewrite add_nan_r. }
  assert (Hnan : row_has_nan (compute_feature gamma block) = true)
    by (rewrite Heq; reflexivity).
  split; [exact Heq |]. split; [exact Hnan |].
  intros distparam Hin.
  apply (distparam_no_nan_spec distparam) in Hin. destruct Hin as [_ Hno].
  congruence.
Qed.

(** X7. A block with no strictly negative pixel, or with none strictly
    positive (an all-zero block, a block of one sign), gets the feature
    vector [0.2, NaN] followed by [0.2, NaN, NaN, beta_r] for each of the
    four shifts.  The row holds a NaN, so line 119 never passes it to the
    covariance. *)
Theorem one_sided_block_features
  (gamma : float -> float) (block : list (list float)) :
  no_negative (concat block) \/ no_positive (concat block) ->
  let beta_r := fun s0 s1 : Z =>
    mul (right_std (concat (Np.mul2 block (Np.roll s0 s1 block))))
        (beta_factor gamma (dec 2 10)) in
  compute_feature gamma block
  = [dec 2 10; nan;
     dec 2 10; nan; nan; beta_r 0 1;
     dec 2 10; nan; nan; beta_r 1 0;
     dec 2 10; nan; nan; beta_r 1 1;
     dec 2 10; nan; nan; beta_r 1 (-1)] /\
  row_has_nan (compute_feature gamma block) = true /\
  forall distparam : list (list float),
    ~ In (compute_feature gamma block) (distparam_no_nan distparam).
Proof. exact (compute_feature_one_sided gamma block). Qed.

Lemma one_sided_block_features_witness :
  (no_negative (concat [[zero; zero]; [zero; zero]]) \/
   no_positive (concat [[zero; zero]; [zero; zero]])) /\
  row_has_nan (compute_feature gamma_sample [[zero; zero]; [zero; zero]])
  = true.
Proof.
  assert (H : no_negative (concat [[zero; zero]; [zero; zero]]) \/
              no_positive (concat [[zero; zero]; [zero; zero]]))
    by (left; repeat constructor).
  split; [exact H |].
  apply (one_sided_block_features gamma_sample
           [[zero; zero]; [zero; zero]] H).
Defined.

(** ** The outcomes of [niqe] *)


(** ** Blocks tile the image *)

(** X9. At a scale [s > 0] the blocks of one row of blocks follow each
    other without gap or overlap: block [idx + 1] starts where block
    [idx] stops, block 0 starts at 0, and every block has
    [block_size // s] or [block_size // s + 1] rows (exactly
    [block_size // s] when [s] divides the block size), and likewise for
    the columns. *)
Theorem block_bounds_tile
  (block_size_h block_size_w scale idx_h idx_w : Z) :
  0 < scale -> 0 <= block_size_h -> 0 <= block_size_w ->
  0 <= idx_h -> 0 <= idx_w ->
  let '(r0, r1, c0, c1) :=
    block_bounds block_size_h block_size_w scale idx_h idx_w in
  let '(r0', _, c0', _) :=
    block_bounds block_size_h block_size_w scale (idx_h + 1) (idx_w + 1) in
  r0' = r1 /\ c0' = c1 /\
  0 <= r0 /\ 0 <= c0 /\
  block_bounds block_size_h block_size_w scale 0 0
  = (0, block_size_h / scale, 0, block_size_w / scale) /\
  block_size_h / scale <= r1 - r0 <= block_size_h / scale + 1 /\
  block_size_w / scale <= c1 - c0 <= block_size_w / scale + 1 /\
  ((scale | block_size_h) -> r1 - r0 = block_size_h / scale) /\
  ((scale | block_size_w) -> c1 - c0 = block_size_w / scale).
Proof.
  intros Hs Hbh Hbw Hih Hiw. unfold block_bounds.
  assert (Hgap : forall b i, 0 <= b -> 0 <= i ->
                   b / scale <= (i + 1) * b / scale - i * b / scale
                   <= b / scale + 1).
  { intros b i Hb Hi.
    replace ((i + 1) * b) with (i * b + b) by lia.
    pose proof (Z.div_mod (i * b) scale ltac:(lia)) as H1.
    pose proof (Z.mod_pos_bound (i * b) scale Hs) as H2.
    pose proof (Z.div_mod b scale ltac:(lia)) as H3.
    pose proof (Z.mod_pos_bound b scale Hs) as H4.
    pose proof (Z.div_mod (i * b + b) scale ltac:(lia)) as H5.
    pose proof (Z.mod_pos_bound (i * b + b) scale Hs) as H6.
    nia. }
  assert (Hdiv : forall b i, (scale | b) ->
                   (i + 1) * b / scale - i * b / scale = b / scale).
  { intros b i Hd. rewrite !Z.divide_div_mul_exact by (try exact Hd; lia).
    lia. }
  repeat split; try reflexivity;
    try (apply Z.div_pos; nia);
    try (apply Hgap; assumption);
    try (now apply Hdiv).
  - now rewrite Z.mul_0_l, Z.mul_1_l, Z.mul_0_l, Z.mul_1_l.
Qed.

Lemma block_bounds_tile_witness :
  (0 < 2 /\ 0 <= 97 /\ 0 <= 1) /\
  97 / 2 <= (1 + 1) * 97 / 2 - 1 * 97 / 2 <= 97 / 2 + 1.
Proof.
  assert (H0 : 0 < 2) by lia.
  assert (H1 : 0 <= 97) by lia.
  assert (H2 : 0 <= 1) by lia.
  split; [repeat split; assumption |].
  pose proof (block_bounds_tile 97 97 2 1 1 H0 H1 H1 H2 H2) as H.
  unfold block_bounds in H. destruct H as (_ & _ & _ & _ & _ & H & _).
  exact H.
Defined.

(** ** A column of NaNs *)








(** ** The remainder rows and columns *)

Lemma chunks_length (h w : nat) (l : list float) :
  length (chunks h w l) = h.
Proof. revert l. induction h as [| h IH]; intros l; simpl; auto. Qed.

Lemma chunks_rows (h w : nat) (l : list float) :
  length l = (h * w)%nat -> Forall (fun row => length row = w) (chunks h w l).
Proof.
  revert l. induction h as [| h IH]; intros l Hl; simpl; constructor.
  - rewrite length_firstn. lia.
  - apply IH. rewrite length_skipn. lia.
Qed.

Lemma chunks_concat (w : nat) (rows : list (list float)) :
  Forall (fun row => length row = w) rows ->
  chunks (length rows) w (concat rows) = rows.
Proof.
  induction 1 as [| r rows Hr Hrows IH]; [reflexivity |].
  simpl. rewrite firstn_app, skipn_app, Hr, Nat.sub_diag.
  rewrite firstn_all2, skipn_all2 by lia.
  simpl. now rewrite app_nil_r, IH.
Qed.

Lemma py_slice_all {A : Type} (n : Z) (l : list A) :
  Z.of_nat (length l) <= n -> py_slice 0 n l = l.
Proof.
  intros H. unfold py_slice. simpl skipn. apply firstn_all2. lia.
Qed.

Lemma slice2_shape (rows cols : Z) (w : nat) (img : image) :
  0 <= rows <= Z.of_nat (length img) -> 0 <= cols <= Z.of_nat w ->
  Forall (fun row => length row = w) img ->
  length (slice2 0 rows 0 cols img) = Z.to_nat rows /\
  Forall (fun row => length row = Z.to_nat cols) (slice2 0 rows 0 cols img).
Proof.
  intros Hr Hc Hrect. unfold slice2. split.
  - rewrite length_map, py_slice_length; lia.
  - rewrite Forall_map, Forall_forall. intros row Hrow.
    assert (Hw : length row = w).
    { rewrite Forall_forall in Hrect. apply Hrect.
      unfold py_slice in Hrow. simpl skipn in Hrow.
      eapply In_firstn_list; exact Hrow. }
    rewrite py_slice_length; lia.
Qed.

Lemma slice2_idempotent (rows cols : Z) (img : image) :
  Z.of_nat (length img) <= rows ->
  Forall (fun row => Z.of_nat (length row) <= cols) img ->
  slice2 0 rows 0 cols img = img.
Proof.
  intros Hr Hc. unfold slice2. rewrite py_slice_all by exact Hr.
  rewrite <- (map_id img) at 2. apply map_ext_in. intros row Hrow.
  apply py_slice_all. rewrite Forall_forall in Hc. now apply Hc.
Qed.

(** X11. The rows and columns beyond the last whole block do not
    reach the score: [niqe] of an image equals [niqe] of the image cut
    down to [h // block_size_h * block_size_h] rows and
    [w // block_size_w * block_size_w] columns, with the same outcome
    when it fails. *)
Theorem niqe_ignores_remainder
  (gamma : float -> float) (convolve : image -> image -> image)
  (imresize : image -> result image) (np_cov : list (list float) -> matrix)
  (pinv : matrix -> result matrix)
  (img : ndarray) (mu_pris_param : list float) (cov_pris_param : matrix)
  (window : image) (h w block_size_h block_size_w : Z) :
  shape img = [h; w] -> 0 <= h -> 0 <= w ->
  length (data img) = Z.to_nat (h * w) ->
  0 < block_size_h -> 0 < block_size_w ->
  shape (crop_to_blocks img block_size_h block_size_w)
  = [h / block_size_h * block_size_h; w / block_size_w * block_size_w] /\
  niqe gamma convolve imresize np_cov pinv
       (crop_to_blocks img block_size_h block_size_w)
       mu_pris_param cov_pris_param window block_size_h block_size_w
  = niqe gamma convolve imresize np_cov pinv img
         mu_pris_param cov_pris_param window block_size_h block_size_w.
Proof.
  intros Hshape Hh Hw Hdata Hbh Hbw.
  set (rows := h / block_size_h * block_size_h).
  set (cols := w / block_size_w * block_size_w).
  assert (Hrows : 0 <= rows <= h).
  { unfold rows. pose proof (Z.mul_div_le h block_size_h Hbh).
    pose proof (Z.div_pos h block_size_h Hh Hbh). nia. }
  assert (Hcols : 0 <= cols <= w).
  { unfold cols. pose proof (Z.mul_div_le w block_size_w Hbw).
    pose proof (Z.div_pos w block_size_w Hw Hbw). nia. }
  assert (Hcrop : crop_to_blocks img block_size_h block_size_w
                  = {| shape := [rows; cols];
                       data := concat (slice2 0 rows 0 cols (rows_of img)) |})
    by (unfold crop_to_blocks; now rewrite Hshape).
  split; [now rewrite Hcrop |].
  assert (Hrect : Forall (fun row => length row = Z.to_nat w) (rows_of img)).
  { unfold rows_of. rewrite Hshape. apply chunks_rows. rewrite Hdata. nia. }
  assert (Hlen : length (rows_of img) = Z.to_nat h)
    by (unfold rows_of; rewrite Hshape; apply chunks_length).
  destruct (slice2_shape rows cols (Z.to_nat w) (rows_of img))
    as [Hl Hr]; [lia | lia | exact Hrect |].
  assert (Hrows_of : rows_of (crop_to_blocks img block_size_h block_size_w)
                     = slice2 0 rows 0 cols (rows_of img)).
  { rewrite Hcrop. unfold rows_of. cbn [shape data].
    rewrite <- Hl. now apply chunks_concat. }
  unfold niqe, niqe_distparam.
  rewrite (niqe_entry_2d img h w) by (try exact Hshape; lia).
  rewrite (niqe_entry_2d _ rows cols)
    by (try (rewrite Hcrop; reflexivity); lia).
  unfold rows at 1, cols at 1. rewrite !Z.div_mul by lia.
  unfold bind. rewrite Hrows_of. fold rows cols.
  rewrite (slice2_idempotent rows cols (slice2 0 rows 0 cols (rows_of img))).
  - reflexivity.
  - lia.
  - eapply Forall_impl; [| exact Hr]. intros row Hrow. simpl in Hrow. lia.
Qed.

Lemma niqe_ignores_remainder_witness :
  (shape img3 = [3; 3] /\ length (data img3) = Z.to_nat (3 * 3) /\ 0 < 2) /\
  shape (crop_to_blocks img3 2 2) = [3 / 2 * 2; 3 / 2 * 2].
Proof.
  assert (H1 : shape img3 = [3; 3]) by reflexivity.
  assert (H2 : length (data img3) = Z.to_nat (3 * 3)) by reflexivity.
  assert (H3 : 0 < 2) by lia.
  split; [repeat split; assumption |].
  apply (niqe_ignores_remainder gamma_sample convolve_impulse resize_sample
           (fun _ => nan_matrix 36) (fun m => Ok m) img3
           (unit_vector 36) (diag_matrix 36 one) window_impulse 3 3 2 2
           H1 ltac:(lia) ltac:(lia) H2 H3 H3).
Defined.

(** ** Feature vectors *)

Lemma add_sign_ok (x y : float) : sign_ok x -> sign_ok y -> sign_ok (add x y).
Proof.
  destruct x as [sx | sx | | sx mx ex], y as [sy | sy | | sy my ey];
    simpl; intros Hx Hy; subst; auto;
    try (destruct sx, sy; exact I); try reflexivity.
  unfold cond_Zopp, binary_normalize.
  destruct (shl_align mx ex (Z.min ex ey)) as [m1 e1].
  destruct (shl_align my ey (Z.min ex ey)) as [m2 e2]. simpl fst.
  change (Z.pos m1 + Z.pos m2) with (Z.pos (m1 + m2)).
  unfold binary_round.
  destruct (shl_align (m1 + m2) (Z.min ex ey) _) as [mz ez].
  pose proof (binary_round_aux_sign false (Z.pos mz) ez loc_Exact) as Hs.
  destruct (binary_round_aux prec emax false (Z.pos mz) ez loc_Exact);
    simpl; auto.
Qed.

Lemma half_sign_ok (x : float) : sign_ok x -> sign_ok (div x (of_Z 2)).
Proof.
  change (of_Z 2) with (S754_finite false 4503599627370496 (-51)).
  destruct x as [sx | sx | | sx mx ex]; simpl; intros Hx; subst; auto.
  unfold div, SFdiv.
  destruct (SFdiv_core_binary prec emax (Z.pos mx) ex
              (Z.pos 4503599627370496) (-51)) as [[mz ez] lz].
  pose proof (binary_round_aux_sign (xorb false false) mz ez lz) as Hs.
  destruct (binary_round_aux prec emax (xorb false false) mz ez lz);
    simpl; auto.
Qed.

Lemma estimate_aggd_param_signs
  (gamma : float -> float) (block : list (list float)) :
  let '(alpha, beta_l, beta_r) := estimate_aggd_param gamma block in
  In alpha gam /\ nonneg alpha /\ sign_ok beta_l /\ sign_ok beta_r.
Proof.
  unfold estimate_aggd_param.
  pose proof (array_position_bound gamma (concat block)) as Hpos.
  split; [now apply nth_In |]. split.
  - rewrite gam_nth by (rewrite <- gam_length; exact Hpos).
    apply arange_entry_nonneg.
  - split; apply mul_sign_ok;
      (apply left_std_sign || apply right_std_sign || apply beta_factor_sign).
Qed.

(** X12. In every feature vector the five [alpha] entries (positions 0,
    2, 6, 10, 14) are grid candidates, hence numbers that are not
    negative, and the nine entries made of [beta_l] and [beta_r]
    (positions 1, 4, 5, 8, 9, 12, 13, 16, 17) are NaN or compare [>= 0];
    only the four mean entries (positions 3, 7, 11, 15) can be
    negative. *)
Theorem feature_vector_signs
  (gamma : float -> float) (block : list (list float)) :
  let feat := compute_feature gamma block in
  (forall k : nat, In k [0; 2; 6; 10; 14]%nat ->
     In (nth k feat nan) gam /\
     is_nan (nth k feat nan) = false /\ leb zero (nth k feat nan) = true) /\
  (forall k : nat, In k [1; 4; 5; 8; 9; 12; 13; 16; 17]%nat ->
     is_nan (nth k feat nan) = true \/ leb zero (nth k feat nan) = true).
Proof.
  intros feat. unfold feat. rewrite compute_feature_unfold.
  rewrite !shift_features_eq. cbn [fst snd].
  pose proof (estimate_aggd_param_signs gamma block) as H0.
  pose proof (estimate_aggd_param_signs gamma
                (Np.mul2 block (Np.roll 0 1 block))) as H1.
  pose proof (estimate_aggd_param_signs gamma
                (Np.mul2 block (Np.roll 1 0 block))) as H2.
  pose proof (estimate_aggd_param_signs gamma
                (Np.mul2 block (Np.roll 1 1 block))) as H3.
  pose proof (estimate_aggd_param_signs gamma
                (Np.mul2 block (Np.roll 1 (-1) block))) as H4.
  destruct (estimate_aggd_param gamma block) as [[a0 l0] r0].
  destruct (estimate_aggd_param gamma (Np.mul2 block (Np.roll 0 1 block)))
    as [[a1 l1] r1].
  destruct (estimate_aggd_param gamma (Np.mul2 block (Np.roll 1 0 block)))
    as [[a2 l2] r2].
  destruct (estimate_aggd_param gamma (Np.mul2 block (Np.roll 1 1 block)))
    as [[a3 l3] r3].
  destruct (estimate_aggd_param gamma (Np.mul2 block (Np.roll 1 (-1) block)))
    as [[a4 l4] r4].
  destruct H0 as (G0 & N0 & L0 & R0), H1 as (G1 & N1 & L1 & R1),
           H2 as (G2 & N2 & L2 & R2), H3 as (G3 & N3 & L3 & R3),
           H4 as (G4 & N4 & L4 & R4).
  cbn [fst snd app]. split.
  - intros k Hk. simpl in Hk.
    destruct Hk as [<- | [<- | [<- | [<- | [<- | []]]]]]; cbn [nth];
      (split; [assumption | now apply nonneg_not_nan_leb]).
  - intros k Hk. simpl in Hk.
    destruct Hk as [<- | [<- | [<- | [<- | [<- | [<- | [<- | [<- | [<- | []]]]]]]]]];
      cbn [nth]; apply sign_ok_nan_or_nonneg;
      try assumption.
    apply half_sign_ok, add_sign_ok; assumption.
Qed.

(** ** An image whose blocks are all one-sided *)





(** ** Conversions in [calculate_niqe] *)

Section EntryFacts.

Variable gamma : float -> float.
Variable convolve : image -> image -> image.
Variable imresize : image -> result image.
Variable np_cov : list (list float) -> matrix.
Variable pinv : matrix -> result matrix.
Variable np_load : string -> result (list float * matrix * image).
Variable astype_float32 : ndarray -> ndarray.
Variable reorder_image : ndarray -> string -> result ndarray.
Variable np_squeeze : ndarray -> ndarray.
Variable crop : Z -> ndarray -> result ndarray.
Variable np_round : ndarray -> ndarray.

(** X14. A [convert_to] that is neither 'y' nor 'gray' is accepted
    without complaint and converts nothing: for an input order other than
    'HW' the reordered image is only squeezed, whatever the two colour
    conversions are.  With [crop_border = 0], an image that is still not
    two-dimensional after that (a colour image) then fails the [assert]
    of [niqe], once the parameter file has been loaded. *)
Theorem calculate_niqe_unknown_conversion
  (to_y_channel bgr2gray : ndarray -> ndarray)
  (img reordered : ndarray) (crop_border : Z)
  (params_path input_order convert_to : string)
  (kwargs : list (string * pyvalue)) (params : list float * matrix * image) :
  input_order <> "HW"%string ->
  convert_to <> "y"%string -> convert_to <> "gray"%string ->
  np_load params_path = Ok params ->
  reorder_image (astype_float32 img) input_order = Ok reordered ->
  let run := fun to_y_channel bgr2gray =>
    calculate_niqe gamma convolve imresize np_cov pinv np_load
      astype_float32 reorder_image to_y_channel bgr2gray np_squeeze crop
      np_round img crop_border params_path input_order convert_to kwargs in
  (forall to_y_channel' bgr2gray' : ndarray -> ndarray,
     run to_y_channel bgr2gray = run to_y_channel' bgr2gray') /\
  run to_y_channel bgr2gray
  = (cropped <- (if negb (crop_border =? 0)
                 then crop crop_border (np_squeeze reordered)
                 else Ok (np_squeeze reordered)) ;;
     niqe gamma convolve imresize np_cov pinv (np_round cropped)
          (fst (fst params)) (snd (fst params)) (snd params) 96 96) /\
  (crop_border = 0 -> ndim (np_round (np_squeeze reordered)) <> 2%nat ->
   run to_y_channel bgr2gray = Raise AssertionError).
Proof.
  intros Horder Hy Hgray Hload Hreorder run.
  apply String.eqb_neq in Horder, Hy, Hgray.
  assert (Hrun : forall f g : ndarray -> ndarray,
             run f g
             = (cropped <- (if negb (crop_border =? 0)
                            then crop crop_border (np_squeeze reordered)
                            else Ok (np_squeeze reordered)) ;;
                niqe gamma convolve imresize np_cov pinv (np_round cropped)
                     (fst (fst params)) (snd (fst params)) (snd params)
                     96 96)).
  { intros f g. unfold run, calculate_niqe, to_gray.
    rewrite Hload, Horder, Hreorder, Hy, Hgray.
    destruct params as [[mu cov] window]. reflexivity. }
  split; [intros f g; now rewrite !Hrun |].
  split; [apply Hrun |].
  intros Hcrop Hndim. rewrite Hrun, Hcrop. cbn [Z.eqb negb bind].
  unfold niqe, niqe_distparam.
  now rewrite (niqe_entry_not_2d _ 96 96 Hndim).
Qed.

End EntryFacts.

Lemma calculate_niqe_unknown_conversion_witness :
  ("HWC" <> "HW" /\ "rgb" <> "y" /\ "rgb" <> "gray")%string /\
  calculate_niqe gamma_sample convolve_impulse resize_sample
    (fun _ => nan_matrix 36) (fun m => Ok m)
    (fun _ => Ok (unit_vector 36, diag_matrix 36 one, []))
    (fun a => a) (fun a _ => Ok a) (fun a => a) (fun a => a) (fun a => a)
    (fun _ a => Ok a) (fun a => a) img2_colour 0 "pre-train-models/" "HWC"
    "rgb" []
  = Raise AssertionError.
Proof.
  assert (H1 : "HWC"%string <> "HW"%string) by discriminate.
  assert (H2 : "rgb"%string <> "y"%string) by discriminate.
  assert (H3 : "rgb"%string <> "gray"%string) by discriminate.
  split; [repeat split; assumption |].
  refine (proj2 (proj2 (calculate_niqe_unknown_conversion gamma_sample
                          convolve_impulse resize_sample
                          (fun _ => nan_matrix 36)
                          (fun m => Ok m)
                          (fun _ => Ok (unit_vector 36, diag_matrix 36 one, []))
                          (fun a => a) (fun a _ => Ok a) (fun a => a)
                          (fun _ a => Ok a) (fun a => a)
                          (fun a => a) (fun a => a) img2_colour img2_colour 0
                          "pre-train-models/" "HWC" "rgb" []
                          (unit_vector 36, diag_matrix 36 one, [])
                          H1 H2 H3 eq_refl eq_refl))
                eq_refl _).
  discriminate.
Defined.

(** ** Two runs of [niqe] *)

Lemma argmin_constant {A : Type} (e : float) (l : list A) :
  Np.argmin (map (fun _ => e) l) = O.
Proof.
  destruct l as [| a l]; [reflexivity |]. simpl.
  destruct (is_nan e) eqn:He; [reflexivity |].
  generalize 1%nat. induction l as [| b l IH]; intros i; [reflexivity |].
  simpl. rewrite (leb_refl e He). simpl. apply IH.
Qed.

Lemma estimate_aggd_param_flat (block : list (list float)) :
  estimate_aggd_param gamma_flat block = flat_estimate block.
Proof.
  unfold estimate_aggd_param, flat_estimate.
  assert (Hpos : array_position gamma_flat (concat block) = O).
  { unfold array_position, r_gam. rewrite map_map.
    apply (argmin_constant
             (square (sub (div (square one) (mul one one))
                          (rhatnorm_of (concat block))))). }
  now rewrite Hpos, gam_first.
Qed.

Lemma compute_feature_flat (block : list (list float)) :
  compute_feature gamma_flat block = flat_features block.
Proof.
  rewrite compute_feature_unfold, !shift_features_eq.
  now rewrite !estimate_aggd_param_flat.
Qed.

Lemma resize_sample_waves :
  resize_sample
    (map_img (fun x => div x (of_Z 255))
       (slice2 0 (16 / 8 * 8) 0 (8 / 8 * 8) (rows_of img_waves)))
  = Ok (halve (map_img (fun x => div x (of_Z 255)) (rows_of img_waves))).
Proof. vm_compute. reflexivity. Qed.

(** The feature matrix of [img_waves] in 8 x 8 blocks: two equal rows. *)
Lemma waves_distparam :
  niqe_distparam gamma_flat convolve_prev resize_sample img_waves
                 window_prev 8 8
  = Ok [waves_row; waves_row].
Proof.
  rewrite (niqe_distparam_blocks gamma_flat convolve_prev resize_sample
             img_waves window_prev 16 8 8 8)
    by (reflexivity || lia).
  cbv zeta. rewrite resize_sample_waves. cbv iota beta.
  refine (f_equal Ok _).
  unfold scale_features.
  change (block_indices (16 / 8) (8 / 8)) with [(0, 0); (1, 0)].
  cbn [map fst snd zip_with]. rewrite !compute_feature_flat.
  vm_compute. reflexivity.
Qed.

(** C1 fails as stated. The image [img_waves] is scored in 8 x 8 blocks
    with the window [[0, 0, 1]] against the pristine mean 0 and the
    pristine covariance [-2 I]; [niqe] checks none of them.  The run is
    evaluated with [convolve_prev], which is the convolution with that
    window, and with the stand-ins [gamma_flat] and [resize_sample].  The
    two blocks of the image are equal at both scales, so the two rows of
    features are equal, and they hold no NaN; their covariance is the
    zero matrix, the pooled matrix is [-I], which is its own
    pseudo-inverse, and the quadratic form is minus the squared length
    of the mean row, a negative number.  Its square root is taken as it
    is and [niqe] returns NaN.  The last part says so for all library
    routines and all inputs: a negative quadratic form is never
    clamped. *)
Lemma C1_counterexample :
  niqe_distparam gamma_flat convolve_prev resize_sample img_waves
                 window_prev 8 8
  = Ok [waves_row; waves_row] /\
  row_has_nan waves_row = false /\
  np_cov_sample (distparam_no_nan [waves_row; waves_row])
  = diag_matrix 36 zero /\
  pooled (diag_matrix 36 (of_Z (-2))) (diag_matrix 36 zero)
  = diag_matrix 36 (of_Z (-1)) /\
  pinv_sample (diag_matrix 36 (of_Z (-1))) = Ok (diag_matrix 36 (of_Z (-1))) /\
  ltb (quadratic_form
         (zip_with sub (repeat zero 36)
            (nanmean_axis0 [waves_row; waves_row]))
         (diag_matrix 36 (of_Z (-1)))) zero = true /\
  niqe gamma_flat convolve_prev resize_sample np_cov_sample pinv_sample
       img_waves (repeat zero 36) (diag_matrix 36 (of_Z (-2)))
       window_prev 8 8
  = Ok nan /\
  (forall (gamma : float -> float) (convolve : image -> image -> image)
          (imresize : image -> result image)
          (np_cov : list (list float) -> matrix)
          (pinv : matrix -> result matrix)
          (img : ndarray) (mu_pris_param : list float)
          (cov_pris_param : matrix) (window : image)
          (block_size_h block_size_w : Z)
          (distparam : list (list float)) (invcov_param : matrix),
      niqe_distparam gamma convolve imresize img window
                     block_size_h block_size_w = Ok distparam ->
      pinv (pooled cov_pris_param (np_cov (distparam_no_nan distparam)))
      = Ok invcov_param ->
      ltb (quadratic_form
             (zip_with sub mu_pris_param (nanmean_axis0 distparam))
             invcov_param) zero = true ->
      niqe gamma convolve imresize np_cov pinv img mu_pris_param
           cov_pris_param window block_size_h block_size_w
      = Ok nan).
Proof.
  assert (Hclean : distparam_no_nan [waves_row; waves_row]
                   = [waves_row; waves_row]) by (vm_compute; reflexivity).
  assert (Hp : pooled (diag_matrix 36 (of_Z (-2))) (diag_matrix 36 zero)
               = diag_matrix 36 (of_Z (-1))) by (vm_compute; reflexivity).
  assert (Hinv : pinv_sample (diag_matrix 36 (of_Z (-1)))
                 = Ok (diag_matrix 36 (of_Z (-1))))
    by (vm_compute; reflexivity).
  assert (Hq : ltb (quadratic_form
                      (zip_with sub (repeat zero 36)
                         (nanmean_axis0 [waves_row; waves_row]))
                      (diag_matrix 36 (of_Z (-1)))) zero = true)
    by (vm_compute; reflexivity).
  assert (Hgen : forall (gamma : float -> float)
                   (convolve : image -> image -> image)
                   (imresize : image -> result image)
                   (np_cov : list (list float) -> matrix)
                   (pinv : matrix -> result matrix)
                   (img : ndarray) (mu_pris_param : list float)
                   (cov_pris_param : matrix) (window : image)
                   (block_size_h block_size_w : Z)
                   (distparam : list (list float)) (invcov_param : matrix),
             niqe_distparam gamma convolve imresize img window
                            block_size_h block_size_w = Ok distparam ->
             pinv (pooled cov_pris_param
                     (np_cov (distparam_no_nan distparam)))
             = Ok invcov_param ->
             ltb (quadratic_form
                    (zip_with sub mu_pris_param (nanmean_axis0 distparam))
                    invcov_param) zero = true ->
             niqe gamma convolve imresize np_cov pinv img mu_pris_param
                  cov_pris_param window block_size_h block_size_w
             = Ok nan).
  { intros gamma convolve imresize np_cov pinv img mu cov window bh bw
           distparam inv Hrun Hpinv Hneg.
    unfold niqe. rewrite Hrun. unfold bind.
    rewrite niqe_aggregate_unfold, Hpinv.
    now rewrite (sqrt_negative _ Hneg). }
  split; [exact waves_distparam |].
  split; [vm_compute; reflexivity |].
  split; [now rewrite Hclean |].
  split; [exact Hp |].
  split; [exact Hinv |].
  split; [exact Hq |].
  split; [| exact Hgen].
  apply (Hgen _ _ _ _ _ _ _ _ _ _ _ [waves_row; waves_row]
              (diag_matrix 36 (of_Z (-1))) waves_distparam).
  - rewrite Hclean. cbn [np_cov_sample]. now rewrite Hp.
  - exact Hq.
Qed.

(** ** The empty sample in a run of [niqe] *)






